(** * ATHENA control plane: orders, positions, risk mandates and the kill switch

    A shallow embedding of
      - [services/execution-gateway/main.py]: [send_order], [cancel_order],
        [cancel_all_orders] and the fill loop [simulate_order_execution];
      - [services/risk-engine/main.py]: [check_mandate_breaches] and
        [execute_kill_switch];
      - [shared/common/auth.py]: [has_permission], [require_permission];
      - [shared/common/database.py]: every [execute]/[fetch*] acquires its
        own pooled connection, so each statement commits on its own.

    Conventions.  SQL tables are lists of rows in insertion order.  A
    NUMERIC column is an exact rational [Q] and holds the number written
    to it (the definitions of the tables, and with them any scale of a
    column, are not among the sources); a NULL column is [None].  A
    Python float is a rational that IEEE 754 binary64 represents: [float]
    rounds a rational to the nearest one, and the risk engine and the
    position book of the fill loop compute with it.  The fill loop's
    arithmetic on the quantities of an order itself (what remains, what
    is filled) is carried out without rounding.  Primary keys, [uuid4()]
    values and user ids are natural numbers; fresh ones are taken from
    [next_id].  [datetime.utcnow()] reads the field [now].  A request
    handler and an iteration of a background loop each run as one step on
    the store; the interleaving of coroutines at their [await] points is
    not modelled. *)

From Stdlib Require Import List String DecimalString Bool Arith Lia ZArith.
From Stdlib Require Import QArith Qabs Lqa Qround Qpower Qreduction.
Import ListNotations.
Open Scope string_scope.
Open Scope Q_scope.

(** ** Enumerations of [shared/common/models.py] *)

Module OrderSide.
Inductive t := BUY | SELL.
Definition eqb (a b : t) : bool :=
  match a, b with BUY, BUY | SELL, SELL => true | _, _ => false end.
End OrderSide.

Module OrderType.
Inductive t := MARKET | LIMIT | STOP | STOP_LIMIT.
End OrderType.

Module OrderStatus.
Inductive t := PENDING | OPEN | FILLED | PARTIAL | CANCELLED | REJECTED.
Definition eqb (a b : t) : bool :=
  match a, b with
  | PENDING, PENDING | OPEN, OPEN | FILLED, FILLED
  | PARTIAL, PARTIAL | CANCELLED, CANCELLED | REJECTED, REJECTED => true
  | _, _ => false
  end.
End OrderStatus.

Module StrategyStatus.
Inductive t := ACTIVE | INACTIVE | HALTED | ERROR.
Definition eqb (a b : t) : bool :=
  match a, b with
  | ACTIVE, ACTIVE | INACTIVE, INACTIVE | HALTED, HALTED | ERROR, ERROR => true
  | _, _ => false
  end.
End StrategyStatus.

Module MandateStatus.
Inductive t := OK | WARNING | BREACH.
Definition eqb (a b : t) : bool :=
  match a, b with
  | OK, OK | WARNING, WARNING | BREACH, BREACH => true
  | _, _ => false
  end.
Definition to_string (s : t) : string :=
  match s with OK => "OK" | WARNING => "WARNING" | BREACH => "BREACH" end.
End MandateStatus.

Module AlertSeverity.
Inductive t := INFO | WARNING | CRITICAL.
End AlertSeverity.

(** JSON values: the entries of the dicts passed to [log_audit] and the
    [value] column of [system_state], which holds JSON text (the kill switch
    writes ['true'] and ['"EMERGENCY"'] into it). *)
Inductive JsonValue :=
| JNat (n : nat)
| JBool (b : bool)
| JNum (q : Q)
| JStr (s : string).

(** ** Rows *)

Record Order := mkOrder {
  o_id : nat;
  o_strategy_id : option nat;
  o_symbol : string;
  o_side : OrderSide.t;
  o_order_type : OrderType.t;
  o_quantity : Q;
  o_price : option Q;
  o_stop_price : option Q;
  o_filled_quantity : Q;
  o_average_fill_price : option Q;
  o_status : OrderStatus.t;
  o_created_by : nat;
  o_updated_at : nat
}.

Record Fill := mkFill {
  f_order_id : nat;
  f_quantity : Q;
  f_price : Q
}.

Record Position := mkPosition {
  p_id : nat;
  p_strategy_id : option nat;
  p_symbol : string;
  p_quantity : Q;
  p_average_entry_price : Q;
  p_current_price : Q;
  p_updated_at : nat
}.

Record Strategy := mkStrategy {
  s_id : nat;
  s_status : StrategyStatus.t;
  s_updated_at : nat
}.

Record SystemState := mkSystemState {
  ss_key : string;
  ss_value : JsonValue;
  ss_updated_at : nat
}.

Record Mandate := mkMandate {
  m_id : nat;
  m_mandate_id : string;
  m_description : string;
  m_soft_limit : option Q;
  m_hard_limit : option Q;
  m_current_value : option Q;
  m_status : MandateStatus.t;
  m_is_active : bool;
  m_updated_at : nat
}.

(** The [alert] dict built in [check_mandate_breaches]; it is both the
    payload of the broadcast and the [details] column of the stored row. *)
Record Alert := mkAlert {
  a_id : nat;
  a_mandate_id : nat;
  a_mandate_code : string;
  a_severity : AlertSeverity.t;
  a_message : string;
  a_current_value : Q;
  a_limit : option Q;
  a_timestamp : nat
}.

Record RiskAlertRow := mkRiskAlertRow {
  ra_mandate_id : nat;
  ra_severity : AlertSeverity.t;
  ra_message : string;
  ra_details : Alert
}.

Record AuditEvent := mkAuditEvent {
  ae_user_id : nat;
  ae_service : string;
  ae_action : string;
  ae_resource_type : string;
  ae_resource_id : string;
  ae_before : option (list (string * JsonValue));
  ae_after : option (list (string * JsonValue))
}.

(** Messages handed to [alert_manager.broadcast_alert]. *)
Inductive WsMessage :=
| MANDATE_ALERT (data : Alert)
| KILL_SWITCH (message reason : string)
              (orders_cancelled positions_closed strategies_halted : nat)
              (timestamp : nat).

(** Messages handed to [redis.publish "system_alerts"]. *)
Record RedisMessage := mkRedisMessage {
  rm_executed_by : string;
  rm_reason : string;
  rm_timestamp : nat
}.

Inductive LogLevel := LOG_INFO | LOG_ERROR | LOG_CRITICAL.

(** ** The shared store and the observable effects *)

Record World := mkWorld {
  orders : list Order;
  fills : list Fill;
  positions : list Position;
  strategies : list Strategy;
  system_state : list SystemState;
  risk_mandates : list Mandate;
  risk_alerts : list RiskAlertRow;
  audit_events : list AuditEvent;
  next_id : nat;
  now : nat;
  prices : list (string * Q);
  open_count : option nat;
  ws_broadcasts : list WsMessage;
  redis_published : list RedisMessage;
  log : list (LogLevel * string)
}.

Definition empty_world : World :=
  mkWorld [] [] [] [] [] [] [] [] 0%nat 0%nat [] None [] [] [].

Definition set_orders (v : list Order) (w : World) : World :=
  mkWorld v (fills w) (positions w) (strategies w) (system_state w)
    (risk_mandates w) (risk_alerts w) (audit_events w) (next_id w) (now w)
    (prices w) (open_count w) (ws_broadcasts w) (redis_published w) (log w).

Definition set_fills (v : list Fill) (w : World) : World :=
  mkWorld (orders w) v (positions w) (strategies w) (system_state w)
    (risk_mandates w) (risk_alerts w) (audit_events w) (next_id w) (now w)
    (prices w) (open_count w) (ws_broadcasts w) (redis_published w) (log w).

Definition set_positions (v : list Position) (w : World) : World :=
  mkWorld (orders w) (fills w) v (strategies w) (system_state w)
    (risk_mandates w) (risk_alerts w) (audit_events w) (next_id w) (now w)
    (prices w) (open_count w) (ws_broadcasts w) (redis_published w) (log w).

Definition set_strategies (v : list Strategy) (w : World) : World :=
  mkWorld (orders w) (fills w) (positions w) v (system_state w)
    (risk_mandates w) (risk_alerts w) (audit_events w) (next_id w) (now w)
    (prices w) (open_count w) (ws_broadcasts w) (redis_published w) (log w).

Definition set_system_state (v : list SystemState) (w : World) : World :=
  mkWorld (orders w) (fills w) (positions w) (strategies w) v
    (risk_mandates w) (risk_alerts w) (audit_events w) (next_id w) (now w)
    (prices w) (open_count w) (ws_broadcasts w) (redis_published w) (log w).

Definition set_risk_mandates (v : list Mandate) (w : World) : World :=
  mkWorld (orders w) (fills w) (positions w) (strategies w) (system_state w)
    v (risk_alerts w) (audit_events w) (next_id w) (now w)
    (prices w) (open_count w) (ws_broadcasts w) (redis_published w) (log w).

Definition set_risk_alerts (v : list RiskAlertRow) (w : World) : World :=
  mkWorld (orders w) (fills w) (positions w) (strategies w) (system_state w)
    (risk_mandates w) v (audit_events w) (next_id w) (now w)
    (prices w) (open_count w) (ws_broadcasts w) (redis_published w) (log w).

Definition set_audit_events (v : list AuditEvent) (w : World) : World :=
  mkWorld (orders w) (fills w) (positions w) (strategies w) (system_state w)
    (risk_mandates w) (risk_alerts w) v (next_id w) (now w)
    (prices w) (open_count w) (ws_broadcasts w) (redis_published w) (log w).

Definition set_next_id (v : nat) (w : World) : World :=
  mkWorld (orders w) (fills w) (positions w) (strategies w) (system_state w)
    (risk_mandates w) (risk_alerts w) (audit_events w) v (now w)
    (prices w) (open_count w) (ws_broadcasts w) (redis_published w) (log w).

Definition set_now (v : nat) (w : World) : World :=
  mkWorld (orders w) (fills w) (positions w) (strategies w) (system_state w)
    (risk_mandates w) (risk_alerts w) (audit_events w) (next_id w) v
    (prices w) (open_count w) (ws_broadcasts w) (redis_published w) (log w).

Definition set_prices (v : list (string * Q)) (w : World) : World :=
  mkWorld (orders w) (fills w) (positions w) (strategies w) (system_state w)
    (risk_mandates w) (risk_alerts w) (audit_events w) (next_id w) (now w)
    v (open_count w) (ws_broadcasts w) (redis_published w) (log w).

Definition set_open_count (v : option nat) (w : World) : World :=
  mkWorld (orders w) (fills w) (positions w) (strategies w) (system_state w)
    (risk_mandates w) (risk_alerts w) (audit_events w) (next_id w) (now w)
    (prices w) v (ws_broadcasts w) (redis_published w) (log w).

Definition set_ws_broadcasts (v : list WsMessage) (w : World) : World :=
  mkWorld (orders w) (fills w) (positions w) (strategies w) (system_state w)
    (risk_mandates w) (risk_alerts w) (audit_events w) (next_id w) (now w)
    (prices w) (open_count w) v (redis_published w) (log w).

Definition set_redis_published (v : list RedisMessage) (w : World) : World :=
  mkWorld (orders w) (fills w) (positions w) (strategies w) (system_state w)
    (risk_mandates w) (risk_alerts w) (audit_events w) (next_id w) (now w)
    (prices w) (open_count w) (ws_broadcasts w) v (log w).

Definition set_log (v : list (LogLevel * string)) (w : World) : World :=
  mkWorld (orders w) (fills w) (positions w) (strategies w) (system_state w)
    (risk_mandates w) (risk_alerts w) (audit_events w) (next_id w) (now w)
    (prices w) (open_count w) (ws_broadcasts w) (redis_published w) v.

(** [alert_manager.broadcast_alert]: a failed send only drops that socket,
    so the call itself never raises. *)
Definition broadcast_alert (msg : WsMessage) (w : World) : World :=
  set_ws_broadcasts (ws_broadcasts w ++ [msg]) w.

Definition logger (lvl : LogLevel) (msg : string) (w : World) : World :=
  set_log (log w ++ [(lvl, msg)]) w.

(** ** Python floats

    [float(x)] of a NUMERIC value, and the result of an operation on
    floats, is the binary64 number nearest to the exact value, ties going
    to the even significand.  A binary64 number is [m * 2 ^ e] with
    [|m| < 2 ^ 53] and [-1074 <= e]; the rational [2 ^ 1024] stands for
    the infinity that values of magnitude [2 ^ 1024 - 2 ^ 970] and more
    round to.  NaN is not represented: it is not the [float] of a finite
    NUMERIC value, and an operation that would give it (infinity minus
    infinity, infinity times zero) is outside the model. *)

(** The integer nearest to [q], the even one of two equally near. *)
Definition round_half_even (q : Q) : Z :=
  let f := Qfloor q in
  match Qcompare (q - inject_Z f) (1 # 2) with
  | Lt => f
  | Gt => (f + 1)%Z
  | Eq => if Z.even f then f else (f + 1)%Z
  end.

(** The exponent of the binary64 grid around [n / d]: the [e] with
    [2 ^ 52 <= (n / d) / 2 ^ e < 2 ^ 53], and [-1074] below the normal
    range. *)
Definition exponent (n d : positive) : Z :=
  let e := (Z.log2 (Zpos n) - Z.log2 (Zpos d) - 53)%Z in
  Z.max (-1074) (if Qle_bool (2 ^ (e + 53)) (Zpos n # d) then e + 1 else e).

Definition infinity : Q := 2 ^ 1024.

Definition nearest (n d : positive) : Q :=
  let e := exponent n d in
  let r := inject_Z (round_half_even ((Zpos n # d) / 2 ^ e)) * 2 ^ e in
  if Qle_bool infinity r then infinity else r.

Definition float (x : Q) : Q :=
  match Qred x with
  | Zpos n # d => nearest n d
  | Z0 # _ => 0
  | Zneg n # d => - nearest n d
  end.
Arguments float : simpl never.

(** [a + b], [a - b] and [a * b] on floats. *)
Definition float_add (a b : Q) : Q := float (a + b).


(** ** Risk engine: [check_mandate_breaches] *)

(** Truth value of a NUMERIC column: NULL and zero are falsy. *)
Definition truthy (x : option Q) : bool :=
  match x with
  | Some q => negb (Qeq_bool q 0)
  | None => false
  end.

(** [float(x) if x else None] *)
Definition float_or_none (x : option Q) : option Q :=
  if truthy x then option_map float x else None.

(** [float(x) if x else 0] *)
Definition float_or_zero (x : option Q) : Q :=
  match x with
  | Some q => if truthy x then float q else 0
  | None => 0
  end.

(** [limit and abs(current) >= abs(limit)] on the converted limit. *)
Definition limit_reached (limit : option Q) (current : Q) : bool :=
  match limit with
  | Some l => negb (Qeq_bool l 0) && Qle_bool (Qabs l) (Qabs current)
  | None => false
  end.

(** Lines 115-127: the new status and the alert severity of one mandate. *)
Definition evaluate (mandate : Mandate)
  : MandateStatus.t * option AlertSeverity.t :=
  let current := float_or_zero (m_current_value mandate) in
  let hard_limit := float_or_none (m_hard_limit mandate) in
  let soft_limit := float_or_none (m_soft_limit mandate) in
  if limit_reached hard_limit current then
    (MandateStatus.BREACH, Some AlertSeverity.CRITICAL)
  else if limit_reached soft_limit current then
    (MandateStatus.WARNING, Some AlertSeverity.WARNING)
  else
    (MandateStatus.OK, None).

(** [UPDATE risk_mandates SET status = $1, updated_at = $2 WHERE id = $3] *)
Definition update_mandate_status (id : nat) (st : MandateStatus.t) (w : World)
  : World :=
  set_risk_mandates
    (map (fun m =>
            if Nat.eqb (m_id m) id then
              mkMandate (m_id m) (m_mandate_id m) (m_description m)
                (m_soft_limit m) (m_hard_limit m) (m_current_value m)
                st (m_is_active m) (now w)
            else m)
         (risk_mandates w)) w.

(** Lines 129-163: the body of the loop, for one row of the snapshot. *)
Definition check_mandate (mandate : Mandate) (w : World) : World :=
  let current := float_or_zero (m_current_value mandate) in
  let hard_limit := float_or_none (m_hard_limit mandate) in
  let soft_limit := float_or_none (m_soft_limit mandate) in
  let '(new_status, alert_severity) := evaluate mandate in
  if MandateStatus.eqb (m_status mandate) new_status then w
  else
    let w1 := update_mandate_status (m_id mandate) new_status w in
    match alert_severity with
    | None => w1
    | Some sev =>
        let alert :=
          mkAlert (next_id w1) (m_id mandate) (m_mandate_id mandate) sev
            ("Mandate " ++ m_mandate_id mandate ++ ": "
               ++ m_description mandate ++ " - "
               ++ MandateStatus.to_string new_status)
            current
            (match new_status with
             | MandateStatus.BREACH => hard_limit
             | _ => soft_limit
             end)
            (now w1) in
        let w2 := set_next_id (S (next_id w1)) w1 in
        let w3 := broadcast_alert (MANDATE_ALERT alert) w2 in
        set_risk_alerts
          (risk_alerts w3
             ++ [mkRiskAlertRow (m_id mandate) sev (a_message alert) alert])
          w3
    end.

(** [SELECT * FROM risk_mandates WHERE is_active = true], then the loop. *)
Definition check_mandate_breaches (w : World) : World :=
  fold_left (fun acc mandate => check_mandate mandate acc)
    (filter m_is_active (risk_mandates w)) w.

(** ** Requests, exceptions and the handler monad *)

Record UserContext := mkUserContext {
  id : nat;
  username : string;
  email : string;
  role : string
}.

Record HTTPException := mkHTTPException {
  status_code : nat;
  detail : string
}.

(** What a handler can raise: an [HTTPException] of its own, or the
    exception of a database or Redis call that failed. *)
Inductive Exn :=
| Http (e : HTTPException)
| CallFailed (call : nat).

Inductive Result (A : Type) :=
| Return (a : A)
| Raise (e : Exn).
Arguments Return {A} a.
Arguments Raise {A} e.

(** A handler runs on the store and leaves a store behind whether it
    returns or raises: no handler opens a transaction. *)
Definition M (A : Type) : Type := World -> World * Result A.

Definition ret {A} (a : A) : M A := fun w => (w, Return a).
Definition raise {A} (e : Exn) : M A := fun w => (w, Raise e).
Definition bind {A B} (m : M A) (k : A -> M B) : M B :=
  fun w =>
    match m w with
    | (w1, Return a) => k a w1
    | (w1, Raise e) => (w1, Raise e)
    end.
Definition get {A} (f : World -> A) : M A := fun w => (w, Return (f w)).
Definition modify (f : World -> World) : M unit := fun w => (f w, Return tt).

Declare Scope handler_scope.
Delimit Scope handler_scope with handler.
Notation "x <- m ;; k" := (bind m (fun x => k))
  (at level 61, m at next level, right associativity) : handler_scope.
Notation "m ;; k" := (bind m (fun _ => k))
  (at level 61, right associativity) : handler_scope.

(** [try: body except Exception as e: handler e] *)
Definition try_except {A} (body : M A) (handler : Exn -> M A) : M A :=
  fun w =>
    match body w with
    | (w1, Return a) => (w1, Return a)
    | (w1, Raise e) => handler e w1
    end.

Definition http {A} (code : nat) (msg : string) : M A :=
  raise (Http (mkHTTPException code msg)).

(** A database or Redis call of a handler or of a loop, numbered in
    program order; [fault k] tells whether call [k] raises.  A statement
    that raises changes nothing. *)
Definition call {A} (fault : nat -> bool) (k : nat) (m : M A) : M A :=
  fun w => if fault k then (w, Raise (CallFailed k)) else m w.

Definition no_fault : nat -> bool := fun _ => false.

(** ** [shared/common/auth.py] *)

Definition ROLE_PERMISSIONS : list (string * list string) :=
  [ ("ADMIN", ["kill_switch"; "strategy_override"; "manual_execution";
               "strategy_register"; "parameter_update"; "read_only";
               "view_audit"; "manage_users"]);
    ("QUANT", ["strategy_register"; "parameter_update"; "read_only";
               "view_audit"]);
    ("VIEWER", ["read_only"]) ].

Definition has_permission (role permission : string) : bool :=
  let permissions :=
    match find (fun kv => String.eqb (fst kv) role) ROLE_PERMISSIONS with
    | Some kv => snd kv
    | None => []
    end in
  existsb (String.eqb permission) permissions.

Definition require_permission (permission : string) (user : UserContext)
  : M UserContext :=
  if has_permission (role user) permission then ret user
  else http 403 ("Access denied. Missing permission: " ++ permission).

(** ** Execution gateway *)

Record OrderCreate := mkOrderCreate {
  oc_symbol : string;
  oc_side : OrderSide.t;
  oc_order_type : OrderType.t;
  oc_quantity : Q;
  oc_price : option Q;
  oc_stop_price : option Q;
  oc_strategy_id : option nat
}.

Record SendOrderResponse := mkSendOrderResponse {
  so_order_id : nat;
  so_symbol : string;
  so_side : OrderSide.t;
  so_quantity : Q;
  so_status : OrderStatus.t;
  so_created_at : nat
}.

Record CancelAllResponse := mkCancelAllResponse {
  ca_orders_cancelled : nat;
  ca_executed_at : nat
}.

Record CancelResponse := mkCancelResponse {
  co_order_id : nat;
  co_previous_status : OrderStatus.t
}.

(** [json.dumps(d) if d else None]: an empty dict is stored as NULL. *)
Definition dumps_or_none (d : option (list (string * JsonValue)))
  : option (list (string * JsonValue)) :=
  match d with
  | Some (_ :: _) => d
  | _ => None
  end.

Definition log_audit (service : string) (user_id : nat)
    (action resource_type resource_id : string)
    (before after : option (list (string * JsonValue))) : M unit :=
  modify (fun w =>
    set_audit_events
      (audit_events w
         ++ [mkAuditEvent user_id service action resource_type resource_id
               (dumps_or_none before) (dumps_or_none after)]) w).

(** [SELECT value FROM system_state WHERE key = $1] through [fetchval]. *)
Definition fetch_system_state (key : string) (w : World) : option JsonValue :=
  option_map ss_value
    (find (fun r => String.eqb (ss_key r) key) (system_state w)).

(** Python's [v == True] on a parsed JSON value: [1] and [1.0] equal [True]. *)
Definition json_eq_True (v : JsonValue) : bool :=
  match v with
  | JBool b => b
  | JNat n => Nat.eqb n 1
  | JNum q => Qeq_bool q 1
  | JStr _ => false
  end.

(** [kill_switch and json.loads(kill_switch) == True] *)
Definition kill_switch_active (w : World) : bool :=
  match fetch_system_state "kill_switch_active" w with
  | Some v => json_eq_True v
  | None => false
  end.

(** [redis.get_json(f"price:{symbol}")], reduced to its [last_price]. *)
Definition get_price (symbol : string) (w : World) : option Q :=
  option_map snd (find (fun kv => String.eqb (fst kv) symbol) (prices w)).

(** [x or y] on an optional float. *)
Definition or_else (x : option Q) (y : Q) : Q :=
  match x with
  | Some q => if truthy x then q else y
  | None => y
  end.

Definition side_value (s : OrderSide.t) : string :=
  match s with OrderSide.BUY => "BUY" | OrderSide.SELL => "SELL" end.

Definition type_value (t : OrderType.t) : string :=
  match t with
  | OrderType.MARKET => "MARKET" | OrderType.LIMIT => "LIMIT"
  | OrderType.STOP => "STOP" | OrderType.STOP_LIMIT => "STOP_LIMIT"
  end.

(** [INSERT INTO orders (...) VALUES (..., 'PENDING', $8) RETURNING id,
    created_at].

    Modelled from the spec: the table definition is not part of the
    sources; a new row starts with [filled_quantity = 0] and no average
    fill price ("filled quantity (0 <= filled <= requested)", and [PENDING]
    orders carry no fill). *)
Definition insert_order (order : OrderCreate) (last_price : Q)
    (created_by : nat) : M (nat * nat) :=
  fun w =>
    let row :=
      mkOrder (next_id w) (oc_strategy_id order) (oc_symbol order)
        (oc_side order) (oc_order_type order) (oc_quantity order)
        (Some (or_else (oc_price order) last_price)) (oc_stop_price order)
        0 None OrderStatus.PENDING created_by (now w) in
    (set_next_id (S (next_id w)) (set_orders (orders w ++ [row]) w),
     Return (next_id w, now w)).

(** [str(n)] *)
Definition str (n : nat) : string :=
  NilZero.string_of_uint (Nat.to_uint n).

(** [str(e)] of an exception. *)
Definition str_exn (e : Exn) : string :=
  match e with
  | Http h => detail h
  | CallFailed k => "call " ++ str k ++ " failed"
  end.

Local Open Scope handler_scope.

(** [POST /orders/send] *)
Definition send_order (order : OrderCreate) (current_user : UserContext)
  : M SendOrderResponse :=
  if String.eqb (role current_user) "VIEWER" then
    http 403 "Viewers cannot submit orders"
  else
    kill_switch <- get kill_switch_active ;;
    if kill_switch then
      http 403 "Trading suspended - Kill switch active"
    else
      price <- get (get_price (oc_symbol order)) ;;
      match price with
      | None => http 400 ("Unknown symbol: " ++ oc_symbol order)
      | Some last_price =>
          result <- insert_order order last_price (id current_user) ;;
          let order_id := fst result in
          log_audit "execution-gateway" (id current_user) "ORDER_SUBMIT"
            "order" (str order_id) None
            (Some [("symbol", JStr (oc_symbol order));
                   ("side", JStr (side_value (oc_side order)));
                   ("quantity", JNum (oc_quantity order));
                   ("type", JStr (type_value (oc_order_type order)))]) ;;
          modify (logger LOG_INFO
                    ("Order submitted: " ++ str order_id)) ;;
          ret (mkSendOrderResponse order_id (oc_symbol order) (oc_side order)
                 (oc_quantity order) OrderStatus.PENDING (snd result))
      end.

Definition is_open (o : Order) : bool :=
  match o_status o with
  | OrderStatus.PENDING | OrderStatus.OPEN | OrderStatus.PARTIAL => true
  | _ => false
  end.

Definition set_order_status (st : OrderStatus.t) (t : nat) (o : Order)
  : Order :=
  mkOrder (o_id o) (o_strategy_id o) (o_symbol o) (o_side o) (o_order_type o)
    (o_quantity o) (o_price o) (o_stop_price o) (o_filled_quantity o)
    (o_average_fill_price o) st (o_created_by o) t.

(** [POST /orders/cancel_all] *)
Definition cancel_all_orders (current_user : UserContext)
  : M CancelAllResponse :=
  if negb (String.eqb (role current_user) "ADMIN") then
    http 403 "Admin access required"
  else
    before_count <- get (fun w => List.length (filter is_open (orders w))) ;;
    modify (fun w =>
      set_orders
        (map (fun o => if is_open o
                       then set_order_status OrderStatus.CANCELLED (now w) o
                       else o)
             (orders w)) w) ;;
    log_audit "execution-gateway" (id current_user) "ORDERS_CANCEL_ALL"
      "order" "all"
      (Some [("open_orders", JNat before_count)])
      (Some [("open_orders", JNat 0)]) ;;
    modify (logger LOG_INFO
              ("All orders cancelled: " ++ str before_count)) ;;
    executed_at <- get now ;;
    ret (mkCancelAllResponse before_count executed_at).

Definition status_value (s : OrderStatus.t) : string :=
  match s with
  | OrderStatus.PENDING => "PENDING" | OrderStatus.OPEN => "OPEN"
  | OrderStatus.FILLED => "FILLED" | OrderStatus.PARTIAL => "PARTIAL"
  | OrderStatus.CANCELLED => "CANCELLED" | OrderStatus.REJECTED => "REJECTED"
  end.

Definition is_terminal (s : OrderStatus.t) : bool :=
  match s with
  | OrderStatus.FILLED | OrderStatus.CANCELLED | OrderStatus.REJECTED => true
  | _ => false
  end.

(** [POST /orders/{order_id}/cancel] *)
Definition cancel_order (order_id : nat) (current_user : UserContext)
  : M CancelResponse :=
  if String.eqb (role current_user) "VIEWER" then
    http 403 "Viewers cannot cancel orders"
  else
    order <- get (fun w => find (fun o => Nat.eqb (o_id o) order_id)
                             (orders w)) ;;
    match order with
    | None => http 404 "Order not found"
    | Some order =>
        if is_terminal (o_status order) then
          http 400 ("Cannot cancel order with status: "
                      ++ status_value (o_status order))
        else
          let before_status := o_status order in
          modify (fun w =>
            set_orders
              (map (fun o => if Nat.eqb (o_id o) order_id
                             then set_order_status OrderStatus.CANCELLED
                                    (now w) o
                             else o)
                   (orders w)) w) ;;
          log_audit "execution-gateway" (id current_user) "ORDER_CANCEL"
            "order" (str order_id)
            (Some [("status", JStr (status_value before_status))])
            (Some [("status", JStr "CANCELLED")]) ;;
          ret (mkCancelResponse order_id before_status)
    end.

(** *** The fill loop [simulate_order_execution] *)

Definition Qlt_bool (x y : Q) : bool := negb (Qle_bool y x).

(** [random.uniform(a, b)] is [a + (b - a) * random()]; here without
    rounding, for the quantities of an order. *)
Definition uniform (a b u : Q) : Q := a + (b - a) * u.

(** The two random numbers one iteration of the loop consumes: the
    [random.random()] compared with [0.3] and the one inside
    [random.uniform]. *)
Record Draw := mkDraw {
  d_chance : Q;
  d_uniform : Q
}.

(** SQL [a = b] in a WHERE clause: not satisfied when either side is NULL. *)
Definition sql_eq (a b : option nat) : bool :=
  match a, b with
  | Some x, Some y => Nat.eqb x y
  | _, _ => false
  end.

(** [price["last_price"] if price else float(order["price"]) if
    order["price"] else 100.0] *)
Definition fill_price_of (order : Order) (w : World) : Q :=
  match get_price (o_symbol order) w with
  | Some last_price => last_price
  | None => or_else (o_price order) 100
  end.

Definition qty_change_of (order : Order) (fill_qty : Q) : Q :=
  match o_side order with
  | OrderSide.BUY => fill_qty
  | OrderSide.SELL => - fill_qty
  end.

(** [SELECT * FROM positions WHERE symbol = $1 AND strategy_id = $2] *)
Definition fetch_position (symbol : string) (strategy_id : option nat)
    (w : World) : option Position :=
  find (fun p => String.eqb (p_symbol p) symbol
                 && sql_eq (p_strategy_id p) strategy_id)
       (positions w).

(** Lines 116-133: the write to [positions], given the row that
    [fetchrow] returned.  The quantity read is a float, and so is the
    sum. *)
Definition write_position (order : Order) (fill_qty fill_price : Q)
    (existing_pos : option Position) (w : World) : World :=
  let qty_change := qty_change_of order fill_qty in
  match existing_pos with
  | Some pos =>
      let new_qty := float_add (float (p_quantity pos)) qty_change in
      set_positions
        (map (fun p =>
                if Nat.eqb (p_id p) (p_id pos) then
                  mkPosition (p_id p) (p_strategy_id p) (p_symbol p) new_qty
                    (p_average_entry_price p) fill_price (now w)
                else p)
             (positions w)) w
  | None =>
      set_next_id (S (next_id w))
        (set_positions
           (positions w
              ++ [mkPosition (next_id w) (o_strategy_id order)
                    (o_symbol order) qty_change fill_price fill_price
                    (now w)]) w)
  end.

(** Lines 109-133: update or create the position of a fill. *)
Definition update_position (order : Order) (fill_qty fill_price : Q)
    (w : World) : World :=
  let existing_pos := fetch_position (o_symbol order) (o_strategy_id order) w in
  write_position order fill_qty fill_price existing_pos w.

(** Lines 86-93: [INSERT INTO fills (order_id, quantity, price)] *)
Definition insert_fill (order : Order) (fill_qty fill_price : Q) (w : World)
  : World :=
  set_fills (fills w ++ [mkFill (o_id order) fill_qty fill_price]) w.

(** Lines 95-107: the new filled quantity and status, and [UPDATE orders]. *)
Definition update_order (order : Order) (fill_qty fill_price : Q) (w : World)
  : World :=
  let new_filled := o_filled_quantity order + fill_qty in
  let new_status :=
    if Qle_bool (o_quantity order) new_filled
    then OrderStatus.FILLED else OrderStatus.PARTIAL in
  let avg_price := fill_price in
  set_orders
    (map (fun o =>
            if Nat.eqb (o_id o) (o_id order) then
              mkOrder (o_id o) (o_strategy_id o) (o_symbol o)
                (o_side o) (o_order_type o) (o_quantity o) (o_price o)
                (o_stop_price o) new_filled (Some avg_price) new_status
                (o_created_by o) (now w)
            else o)
         (orders w)) w.

(** Lines 86-133 when each statement succeeds: record the fill, update the
    order, update the position. *)
Definition apply_fill (order : Order) (fill_qty fill_price : Q) (w : World)
  : World :=
  let w1 := insert_fill order fill_qty fill_price w in
  let w2 := update_order order fill_qty fill_price w1 in
  update_position order fill_qty fill_price w2.

(** Lines 76-133 when each call succeeds: the body of the loop, for one
    row of the snapshot. *)
Definition process_order (draw : Draw) (order : Order) (w : World) : World :=
  if Qlt_bool (d_chance draw) (3 # 10) then
    let remaining := o_quantity order - o_filled_quantity order in
    let fill_qty := uniform 0 remaining (d_uniform draw) in
    if Qlt_bool 0 fill_qty then
      let fill_price := fill_price_of order w in
      apply_fill order fill_qty fill_price w
    else w
  else w.

Fixpoint process_orders (draws : nat -> Draw) (i : nat) (snapshot : list Order)
    (w : World) : World :=
  match snapshot with
  | [] => w
  | order :: rest =>
      process_orders draws (S i) rest (process_order (draws i) order w)
  end.

(** One iteration of the [while True] loop when each call succeeds: the
    snapshot of at most ten open orders ([LIMIT 10] without ORDER BY; the
    first ten rows here), the loop over it, and the open-order count for
    Redis. *)
Definition simulate_order_execution (draws : nat -> Draw) (w : World)
  : World :=
  let snapshot := firstn 10 (filter is_open (orders w)) in
  let w1 := process_orders draws 0 snapshot w in
  set_open_count (Some (List.length (filter is_open (orders w1)))) w1.

(** *** The fill loop, call by call

    The same iteration with every database and Redis call able to raise.
    Each statement commits on its own, so what was written before the
    call that raises stays written; the [except] clause of the loop logs
    the error and the rest of the iteration is skipped.  The calls for one
    row of the snapshot are numbered 1 to 5: the price read from Redis,
    [INSERT INTO fills], [UPDATE orders], the [fetchrow] on [positions]
    and the write to [positions]. *)

(** Lines 86-133 *)
Definition fill_statements (fault : nat -> bool) (order : Order)
    (fill_qty fill_price : Q) : M unit :=
  call fault 2 (modify (insert_fill order fill_qty fill_price)) ;;
  call fault 3 (modify (update_order order fill_qty fill_price)) ;;
  existing_pos <-
    call fault 4
      (get (fetch_position (o_symbol order) (o_strategy_id order))) ;;
  call fault 5
    (modify (write_position order fill_qty fill_price existing_pos)).

(** Lines 76-133 *)
Definition process_order_calls (fault : nat -> bool) (draw : Draw)
    (order : Order) : M unit :=
  if Qlt_bool (d_chance draw) (3 # 10) then
    let remaining := o_quantity order - o_filled_quantity order in
    let fill_qty := uniform 0 remaining (d_uniform draw) in
    if Qlt_bool 0 fill_qty then
      fill_price <- call fault 1 (get (fill_price_of order)) ;;
      fill_statements fault order fill_qty fill_price
    else ret tt
  else ret tt.

(** [fault (S i)] are the faults of the calls for row [i] of the snapshot,
    [fault 0] those of the three calls around the loop. *)
Fixpoint process_orders_calls (fault : nat -> nat -> bool)
    (draws : nat -> Draw) (i : nat) (snapshot : list Order) : M unit :=
  match snapshot with
  | [] => ret tt
  | order :: rest =>
      process_order_calls (fault (S i)) (draws i) order ;;
      process_orders_calls fault draws (S i) rest
  end.

(** Lines 69-145: one iteration of the [while True] loop. *)
Definition simulate_order_execution_calls (fault : nat -> nat -> bool)
    (draws : nat -> Draw) : M unit :=
  try_except
    (snapshot <-
       call (fault 0%nat) 1
         (get (fun w => firstn 10 (filter is_open (orders w)))) ;;
     process_orders_calls fault draws 0 snapshot ;;
     count <-
       call (fault 0%nat) 2
         (get (fun w => List.length (filter is_open (orders w)))) ;;
     call (fault 0%nat) 3 (modify (set_open_count (Some count))))
    (fun e =>
       modify (logger LOG_ERROR
                 ("Execution simulation error: " ++ str_exn e))).

(** ** Risk engine: [execute_kill_switch] *)

Record KillSwitchRequest := mkKillSwitchRequest {
  ks_reason : string;
  ks_confirm : bool
}.

Record KillSwitchResponse := mkKillSwitchResponse {
  kr_success : bool;
  kr_orders_cancelled : nat;
  kr_positions_closed : nat;
  kr_message : string;
  kr_executed_at : nat
}.

(** [WHERE status IN ('PENDING', 'OPEN')] of the kill switch. *)
Definition pending_or_open (o : Order) : bool :=
  match o_status o with
  | OrderStatus.PENDING | OrderStatus.OPEN => true
  | _ => false
  end.

Definition is_active (s : Strategy) : bool :=
  StrategyStatus.eqb (s_status s) StrategyStatus.ACTIVE.

Definition nonzero (p : Position) : bool := negb (Qeq_bool (p_quantity p) 0).

(** [UPDATE system_state SET value = $v, updated_at = $1 WHERE key = $k] *)
Definition update_system_state (key : string) (v : JsonValue) (w : World)
  : World :=
  set_system_state
    (map (fun r => if String.eqb (ss_key r) key
                   then mkSystemState (ss_key r) v (now w) else r)
         (system_state w)) w.

(** [UPDATE orders SET status = 'CANCELLED', updated_at = $1 WHERE status
    IN ('PENDING', 'OPEN')] *)
Definition cancel_open_orders (w : World) : World :=
  set_orders
    (map (fun o => if pending_or_open o
                   then set_order_status OrderStatus.CANCELLED (now w) o
                   else o)
         (orders w)) w.

(** [UPDATE positions SET quantity = 0, updated_at = $1] *)
Definition close_all_positions (w : World) : World :=
  set_positions
    (map (fun p =>
            mkPosition (p_id p) (p_strategy_id p) (p_symbol p) 0
              (p_average_entry_price p) (p_current_price p) (now w))
         (positions w)) w.

(** [UPDATE strategies SET status = 'HALTED', updated_at = $1 WHERE status
    = 'ACTIVE'] *)
Definition halt_active_strategies (w : World) : World :=
  set_strategies
    (map (fun s => if is_active s
                   then mkStrategy (s_id s) StrategyStatus.HALTED (now w)
                   else s)
         (strategies w)) w.

(** [POST /risk/kill-switch], after the dependency [require_permission]. *)
Definition execute_kill_switch (fault : nat -> bool)
    (request : KillSwitchRequest) (current_user : UserContext)
  : M KillSwitchResponse :=
  if negb (ks_confirm request) then
    http 400 "Kill switch must be explicitly confirmed"
  else
    modify (logger LOG_CRITICAL
              ("KILL SWITCH ACTIVATED by " ++ username current_user)) ;;
    open_orders <-
      call fault 1 (get (fun w =>
        List.length (filter pending_or_open (orders w)))) ;;
    active_strategies <-
      call fault 2 (get (fun w =>
        List.length (filter is_active (strategies w)))) ;;
    let before_state :=
      [("open_orders", JNat open_orders);
       ("active_strategies", JNat active_strategies);
       ("kill_switch_active", JBool false)] in
    try_except
      (call fault 3 (modify cancel_open_orders) ;;
       positions_closed <-
         call fault 4 (get (fun w =>
           List.length (filter nonzero (positions w)))) ;;
       call fault 5 (modify close_all_positions) ;;
       call fault 6 (modify halt_active_strategies) ;;
       call fault 7
         (modify (update_system_state "kill_switch_active" (JBool true))) ;;
       call fault 8
         (modify (update_system_state "system_status" (JStr "EMERGENCY"))) ;;
       let after_state :=
         [("open_orders", JNat 0);
          ("active_strategies", JNat 0);
          ("kill_switch_active", JBool true);
          ("positions_closed", JNat positions_closed)] in
       call fault 9
         (log_audit "risk-engine" (id current_user) "KILL_SWITCH_EXECUTE"
            "system" "global" (Some before_state) (Some after_state)) ;;
       modify (fun w =>
         broadcast_alert
           (KILL_SWITCH
              ("KILL SWITCH ACTIVATED by " ++ username current_user)
              (ks_reason request) open_orders positions_closed
              active_strategies (now w)) w) ;;
       call fault 10 (modify (fun w =>
         set_redis_published
           (redis_published w
              ++ [mkRedisMessage (username current_user) (ks_reason request)
                    (now w)]) w)) ;;
       executed_at <- get now ;;
       ret (mkKillSwitchResponse true open_orders positions_closed
              ("Kill switch executed. Reason: " ++ ks_reason request)
              executed_at))
      (fun e =>
         modify (logger LOG_ERROR
                   ("Kill switch execution failed: " ++ str_exn e)) ;;
         http 500 ("Kill switch failed: " ++ str_exn e)).

(** The endpoint as FastAPI runs it: the dependency, then the handler. *)
Definition kill_switch_endpoint (fault : nat -> bool)
    (request : KillSwitchRequest) (user : UserContext)
  : M KillSwitchResponse :=
  current_user <- require_permission "kill_switch" user ;;
  execute_kill_switch fault request current_user.

(** ** Runs of the system *)

(** What can happen to the store: a request to one of the endpoints, an
    iteration of one of the two background loops, a change made by a
    collaborator (market data publishes a price, the risk loop stores a
    mandate's current value), or time passing. *)
Inductive Op :=
| SendOrder (order : OrderCreate) (user : UserContext)
| CancelOrder (order_id : nat) (user : UserContext)
| CancelAll (user : UserContext)
| Simulate (draws : nat -> Draw)
| KillSwitch (fault : nat -> bool) (request : KillSwitchRequest)
             (user : UserContext)
| CheckMandates
| SetCurrentValue (mandate : nat) (v : option Q)
| SetPrice (symbol : string) (last_price : Q)
| Tick.

(** [UPDATE risk_mandates SET current_value = $1 WHERE id = $2] of
    [risk_monitoring_loop]. *)
Definition set_current_value (mandate : nat) (v : option Q) (w : World)
  : World :=
  set_risk_mandates
    (map (fun m =>
            if Nat.eqb (m_id m) mandate then
              mkMandate (m_id m) (m_mandate_id m) (m_description m)
                (m_soft_limit m) (m_hard_limit m) v
                (m_status m) (m_is_active m) (m_updated_at m)
            else m)
         (risk_mandates w)) w.

Definition step (op : Op) (w : World) : World :=
  match op with
  | SendOrder order user => fst (send_order order user w)
  | CancelOrder order_id user => fst (cancel_order order_id user w)
  | CancelAll user => fst (cancel_all_orders user w)
  | Simulate draws => simulate_order_execution draws w
  | KillSwitch fault request user =>
      fst (kill_switch_endpoint fault request user w)
  | CheckMandates => check_mandate_breaches w
  | SetCurrentValue mandate v => set_current_value mandate v w
  | SetPrice symbol last_price =>
      set_prices ((symbol, last_price) :: prices w) w
  | Tick => set_now (S (now w)) w
  end.

Definition run (ops : list Op) (w : World) : World :=
  fold_left (fun acc op => step op acc) ops w.

(** The same, with iterations of the fill loop in which calls fail. *)
Inductive Event :=
| Does (op : Op)
| FillLoop (fault : nat -> nat -> bool) (draws : nat -> Draw).

Definition occur (ev : Event) (w : World) : World :=
  match ev with
  | Does op => step op w
  | FillLoop fault draws => fst (simulate_order_execution_calls fault draws w)
  end.

Definition history (evs : list Event) (w : World) : World :=
  fold_left (fun acc ev => occur ev acc) evs w.

Local Close Scope handler_scope.

(** * Properties *)

(** ** Rounding to a float

    [float] respects equality of rationals, commutes with negation and
    with the absolute value, and is monotone. *)

Lemma round_half_even_bounds q :
  (Qfloor q <= round_half_even q <= Qfloor q + 1)%Z.
Proof.
  unfold round_half_even.
  destruct (Qcompare _ _); [destruct (Z.even _)| |]; lia.
Qed.

Lemma round_half_even_Z k : round_half_even (inject_Z k) = k.
Proof.
  unfold round_half_even. rewrite Qfloor_Z.
  replace (Qcompare (inject_Z k - inject_Z k) (1 # 2)) with Lt; [reflexivity|].
  symmetry. rewrite <- Qlt_alt. lra.
Qed.

Lemma round_half_even_le q1 q2 :
  q1 <= q2 -> (round_half_even q1 <= round_half_even q2)%Z.
Proof.
  intros Hle.
  pose proof (Qfloor_resp_le _ _ Hle) as Hf.
  pose proof (round_half_even_bounds q1) as H1.
  pose proof (round_half_even_bounds q2) as H2.
  destruct (Z.eq_dec (Qfloor q1) (Qfloor q2)) as [Heq|Hne]; [|lia].
  unfold round_half_even in *. rewrite <- Heq in *.
  destruct (Qcompare (q1 - inject_Z (Qfloor q1)) (1 # 2)) eqn:C1;
    destruct (Qcompare (q2 - inject_Z (Qfloor q1)) (1 # 2)) eqn:C2;
    try lia;
    try (destruct (Z.even (Qfloor q1)); lia);
    exfalso;
    repeat match goal with
      | H : Qcompare _ _ = Eq |- _ => apply Qeq_alt in H
      | H : Qcompare _ _ = Lt |- _ => apply Qlt_alt in H
      | H : Qcompare _ _ = Gt |- _ => apply Qgt_alt in H
      end; lra.
Qed.

Lemma pow2_pos e : 0 < 2 ^ e.
Proof. apply Qpower_0_lt. reflexivity. Qed.

Lemma pow2_plus a b : 2 ^ (a + b) == 2 ^ a * 2 ^ b.
Proof. apply Qpower_plus. discriminate. Qed.

Lemma pow2_le a b : (a <= b)%Z -> 2 ^ a <= 2 ^ b.
Proof. intros H. apply Qpower_le_compat_l; [exact H | discriminate]. Qed.

Lemma pow2_succ a : 2 ^ (a + 1) == 2 * 2 ^ a.
Proof. rewrite pow2_plus. change (2 ^ 1) with 2. ring. Qed.

Lemma log2_bounds (p : positive) :
  2 ^ Z.log2 (Zpos p) <= inject_Z (Zpos p)
  /\ inject_Z (Zpos p) < 2 * 2 ^ Z.log2 (Zpos p).
Proof.
  pose proof (Z.log2_spec (Zpos p) ltac:(lia)) as [Hlo Hhi].
  pose proof (Z.log2_nonneg (Zpos p)) as Hnn.
  split.
  - rewrite <- (Zpower_Qpower 2) by exact Hnn.
    rewrite <- Zle_Qle. exact Hlo.
  - rewrite <- pow2_succ.
    rewrite <- (Zpower_Qpower 2) by lia.
    rewrite <- Zlt_Qlt. exact Hhi.
Qed.

Lemma exponent_spec n d :
  (-1074 <= exponent n d)%Z
  /\ (Zpos n # d) < 2 ^ (exponent n d + 53)
  /\ ((-1074 < exponent n d)%Z -> 2 ^ (exponent n d + 52) <= (Zpos n # d)).
Proof.
  unfold exponent.
  set (x := Zpos n # d).
  set (e := (Z.log2 (Zpos n) - Z.log2 (Zpos d) - 53)%Z).
  destruct (log2_bounds n) as [Hn1 Hn2].
  destruct (log2_bounds d) as [Hd1 Hd2].
  pose proof (pow2_pos (Z.log2 (Zpos n))) as HA.
  pose proof (pow2_pos (Z.log2 (Zpos d))) as HB.
  assert (Hx : x * inject_Z (Zpos d) == inject_Z (Zpos n)).
  { unfold x. rewrite (Qmake_Qdiv (Zpos n) d). field. discriminate. }
  assert (Hxpos : 0 < x) by reflexivity.
  assert (Hlow : 2 ^ (e + 52) < x).
  { assert (Hp : 2 ^ (e + 52) * (2 * 2 ^ Z.log2 (Zpos d)) == 2 ^ Z.log2 (Zpos n)).
    { rewrite <- pow2_succ, <- pow2_plus. unfold e.
      replace (Z.log2 (Zpos n) - Z.log2 (Zpos d) - 53 + 52
               + (Z.log2 (Zpos d) + 1))%Z with (Z.log2 (Zpos n)) by lia.
      reflexivity. }
    pose proof (pow2_pos (e + 52)) as HP.
    apply Qnot_le_lt. intros Hc. nra. }
  assert (Hhigh : x < 2 ^ (e + 54)).
  { assert (Hp : 2 ^ (e + 54) * 2 ^ Z.log2 (Zpos d) == 2 * 2 ^ Z.log2 (Zpos n)).
    { rewrite <- pow2_succ, <- pow2_plus. unfold e.
      replace (Z.log2 (Zpos n) - Z.log2 (Zpos d) - 53 + 54 + Z.log2 (Zpos d))%Z
        with (Z.log2 (Zpos n) + 1)%Z by lia.
      reflexivity. }
    pose proof (pow2_pos (e + 54)) as HP.
    apply Qnot_le_lt. intros Hc. nra. }
  destruct (Qle_bool (2 ^ (e + 53)) x) eqn:Htest.
  - apply Qle_bool_iff in Htest.
    split; [lia|]. split.
    + apply Qlt_le_trans with (2 ^ (e + 54)); [exact Hhigh|].
      apply pow2_le. lia.
    + intros Hgt. replace (Z.max (-1074) (e + 1)) with (e + 1)%Z by lia.
      replace (e + 1 + 52)%Z with (e + 53)%Z by lia. exact Htest.
  - assert (Hlt : x < 2 ^ (e + 53)).
    { apply Qnot_le_lt. intros Hc. apply Qle_bool_iff in Hc. congruence. }
    split; [lia|]. split.
    + apply Qlt_le_trans with (2 ^ (e + 53)); [exact Hlt|].
      apply pow2_le. lia.
    + intros Hgt. replace (Z.max (-1074) e) with e by lia.
      apply Qlt_le_weak. exact Hlow.
Qed.

Definition rounded (n d : positive) : Q :=
  inject_Z (round_half_even ((Zpos n # d) / 2 ^ exponent n d))
  * 2 ^ exponent n d.

Lemma nearest_rounded n d :
  nearest n d = if Qle_bool infinity (rounded n d) then infinity else rounded n d.
Proof. reflexivity. Qed.

Lemma scaled_lt n d : (Zpos n # d) / 2 ^ exponent n d < inject_Z (2 ^ 53).
Proof.
  destruct (exponent_spec n d) as (_ & Hhi & _).
  rewrite pow2_plus in Hhi.
  apply Qlt_shift_div_r; [apply pow2_pos|].
  rewrite (Zpower_Qpower 2) by lia.
  rewrite Qmult_comm. exact Hhi.
Qed.

Lemma scaled_ge n d :
  (-1074 < exponent n d)%Z ->
  inject_Z (2 ^ 52) <= (Zpos n # d) / 2 ^ exponent n d.
Proof.
  intros Hgt.
  destruct (exponent_spec n d) as (_ & _ & Hlo). specialize (Hlo Hgt).
  rewrite pow2_plus in Hlo.
  apply Qle_shift_div_l; [apply pow2_pos|].
  rewrite (Zpower_Qpower 2) by lia.
  rewrite Qmult_comm. exact Hlo.
Qed.

Lemma rounded_nonneg n d : 0 <= rounded n d.
Proof.
  unfold rounded.
  apply Qmult_le_0_compat; [|apply Qlt_le_weak, pow2_pos].
  change 0 with (inject_Z 0). rewrite <- Zle_Qle.
  etransitivity; [|apply round_half_even_bounds].
  change 0%Z with (Qfloor (inject_Z 0)).
  apply Qfloor_resp_le.
  apply Qle_shift_div_l; [apply pow2_pos|].
  rewrite Qmult_0_l. discriminate.
Qed.

Lemma rounded_le n d n' d' :
  (Zpos n # d) <= (Zpos n' # d') -> rounded n d <= rounded n' d'.
Proof.
  intros Hle. unfold rounded.
  pose proof (pow2_pos (exponent n d)) as Hp.
  pose proof (pow2_pos (exponent n' d')) as Hp'.
  destruct (Z.lt_trichotomy (exponent n d) (exponent n' d')) as [Hlt|[Heq|Hgt]].
  - assert (H1 : (round_half_even ((Zpos n # d) / 2 ^ exponent n d) <= 2 ^ 53)%Z).
    { rewrite <- (round_half_even_Z (2 ^ 53)).
      apply round_half_even_le, Qlt_le_weak, scaled_lt. }
    assert (H2 : (2 ^ 52 <= round_half_even ((Zpos n' # d') / 2 ^ exponent n' d'))%Z).
    { rewrite <- (round_half_even_Z (2 ^ 52)).
      apply round_half_even_le, scaled_ge.
      destruct (exponent_spec n d) as (Hmin & _). lia. }
    apply Qle_trans with (inject_Z (2 ^ 53) * 2 ^ exponent n d).
    { apply Qmult_le_compat_r; [|apply Qlt_le_weak, Hp].
      rewrite <- Zle_Qle. exact H1. }
    apply Qle_trans with (inject_Z (2 ^ 52) * 2 ^ exponent n' d').
    2:{ apply Qmult_le_compat_r; [|apply Qlt_le_weak, Hp'].
        rewrite <- Zle_Qle. exact H2. }
    rewrite !(Zpower_Qpower 2) by lia.
    rewrite <- !pow2_plus. apply pow2_le. lia.
  - rewrite <- Heq.
    apply Qmult_le_compat_r; [|apply Qlt_le_weak, Hp].
    rewrite <- Zle_Qle. apply round_half_even_le.
    apply Qmult_le_compat_r; [exact Hle|].
    apply Qlt_le_weak, Qinv_lt_0_compat, Hp.
  - exfalso.
    destruct (exponent_spec n d) as (_ & _ & Hlo).
    destruct (exponent_spec n' d') as (Hmin & Hhi & _).
    specialize (Hlo ltac:(lia)).
    assert (Hpow : 2 ^ (exponent n' d' + 53) <= 2 ^ (exponent n d + 52))
      by (apply pow2_le; lia).
    lra.
Qed.

Lemma nearest_nonneg n d : 0 <= nearest n d.
Proof.
  rewrite nearest_rounded.
  destruct (Qle_bool _ _); [discriminate | apply rounded_nonneg].
Qed.

Lemma nearest_le n d n' d' :
  (Zpos n # d) <= (Zpos n' # d') -> nearest n d <= nearest n' d'.
Proof.
  intros Hle. pose proof (rounded_le _ _ _ _ Hle) as Hr.
  rewrite !nearest_rounded.
  destruct (Qle_bool infinity (rounded n d)) eqn:H1;
    destruct (Qle_bool infinity (rounded n' d')) eqn:H2.
  - apply Qle_refl.
  - apply Qle_bool_iff in H1.
    assert (Hc : Qle_bool infinity (rounded n' d') = true)
      by (apply Qle_bool_iff; lra).
    congruence.
  - apply Qlt_le_weak, Qnot_le_lt. intros Hc.
    apply Qle_bool_iff in Hc. congruence.
  - exact Hr.
Qed.

(** [float] is monotone. *)
Lemma float_le x y : x <= y -> float x <= float y.
Proof.
  intros Hle. unfold float.
  pose proof (Qred_correct x) as Hx. pose proof (Qred_correct y) as Hy.
  destruct (Qred x) as [[|nx|nx] dx]; destruct (Qred y) as [[|ny|ny] dy].
  - apply Qle_refl.
  - apply nearest_nonneg.
  - exfalso. assert (Hn : Zneg ny # dy < 0) by reflexivity.
    assert (Hz : 0 # dx == 0) by reflexivity. lra.
  - exfalso. assert (Hn : 0 < Zpos nx # dx) by reflexivity.
    assert (Hz : 0 # dy == 0) by reflexivity. lra.
  - apply nearest_le. lra.
  - exfalso. assert (Hn : 0 < Zpos nx # dx) by reflexivity.
    assert (Hn' : Zneg ny # dy < 0) by reflexivity. lra.
  - pose proof (nearest_nonneg nx dx). lra.
  - pose proof (nearest_nonneg nx dx). pose proof (nearest_nonneg ny dy). lra.
  - apply Qopp_le_compat. apply nearest_le.
    change (Zpos ny # dy) with (- (Zneg ny # dy)).
    change (Zpos nx # dx) with (- (Zneg nx # dx)). lra.
Qed.

Lemma float_Qeq x y : x == y -> float x = float y.
Proof. intros H. unfold float. rewrite (Qred_complete _ _ H). reflexivity. Qed.

Lemma float_opp x : float (- x) == - float x.
Proof.
  unfold float. rewrite Qred_opp.
  destruct (Qred x) as [[|n|n] d]; cbn [Qopp Qnum Qden Z.opp]; try reflexivity.
  rewrite Qopp_involutive. reflexivity.
Qed.

Lemma float_nonneg x : 0 <= x -> 0 <= float x.
Proof. intros H. change 0 with (float 0). apply float_le, H. Qed.

Lemma float_abs x : Qabs (float x) == float (Qabs x).
Proof.
  destruct (Qlt_le_dec x 0) as [Hneg|Hpos].
  - assert (Hx : Qabs x == - x) by (apply Qabs_neg; lra).
    rewrite (float_Qeq _ _ Hx), float_opp.
    apply Qabs_neg. change 0 with (float 0). apply float_le. lra.
  - rewrite (float_Qeq _ _ (Qabs_pos x Hpos)).
    apply Qabs_pos, float_nonneg, Hpos.
Qed.

Lemma float_abs_le x y : Qabs x <= Qabs y -> Qabs (float x) <= Qabs (float y).
Proof. intros H. rewrite !float_abs. apply float_le, H. Qed.


Lemma float_0 x : x == 0 -> float x = 0.
Proof. intros H. rewrite (float_Qeq _ _ H). reflexivity. Qed.

(** The values that come up in the examples round as Python rounds them:
    0.3 and 0.02 are not binary64 numbers, [2 ^ 53 + 1] lies half way
    between two of them, and what is smaller than half the least positive
    one becomes 0. *)
Example float_values :
  float 100 == 100
  /\ float (3 # 10) == 5404319552844595 # 18014398509481984
  /\ float (- (2 # 100)) == - (5764607523034235 # 288230376151711744)
  /\ float (2 ^ 53 + 1) == 2 ^ 53
  /\ float (2 ^ 53 + 3) == 2 ^ 53 + 4
  /\ float (2 ^ (-1075)) == 0
  /\ float (3 * 2 ^ (-1075)) == 2 ^ (-1073)
  /\ float (2 ^ 1024 - 2 ^ 970) == infinity
  /\ float (100 * float (6 # 10)) == 60.
Proof. vm_compute. repeat split. Qed.

(** ** Mandate evaluation *)

Lemma MandateStatus_eqb_eq a b : MandateStatus.eqb a b = true <-> a = b.
Proof. destruct a, b; simpl; split; congruence. Qed.

Lemma MandateStatus_eqb_refl a : MandateStatus.eqb a a = true.
Proof. now destruct a. Qed.

Lemma OrderStatus_eqb_eq a b : OrderStatus.eqb a b = true <-> a = b.
Proof. destruct a, b; simpl; split; congruence. Qed.

(** The stored value a mandate is judged on: a NULL current value counts
    as 0. *)
Definition value_of (m : Mandate) : Q :=
  match m_current_value m with
  | Some c => c
  | None => 0
  end.

(** The floats the check compares: lines 115-117. *)
Definition current_of (m : Mandate) : Q := float_or_zero (m_current_value m).
Definition hard_limit_of (m : Mandate) : option Q :=
  float_or_none (m_hard_limit m).
Definition soft_limit_of (m : Mandate) : option Q :=
  float_or_none (m_soft_limit m).

(** A limit is in force when it is read and is not zero; it is breached
    when in addition the magnitude of the value reaches its magnitude. *)
Definition breached (limit : option Q) (value : Q) : Prop :=
  exists l, limit = Some l /\ ~ l == 0 /\ Qabs l <= Qabs value.

Lemma float_or_zero_value m : current_of m = float (value_of m).
Proof.
  unfold current_of, float_or_zero, value_of, truthy.
  destruct (m_current_value m) as [c|]; [|reflexivity].
  destruct (Qeq_bool c 0) eqn:E; simpl; [|reflexivity].
  apply Qeq_bool_iff in E. symmetry. now apply float_0.
Qed.



Lemma limit_reached_iff l c : limit_reached l c = true <-> breached l c.
Proof.
  unfold limit_reached, breached. destruct l as [l|].
  - rewrite andb_true_iff, negb_true_iff, Qle_bool_iff. split.
    + intros [H1 H2]. exists l. repeat split; trivial.
      now apply Qeq_bool_neq.
    + intros (l' & E & H1 & H2). injection E as <-. split; trivial.
      destruct (Qeq_bool l 0) eqn:E; trivial.
      apply Qeq_bool_iff in E. contradiction.
  - split; [discriminate | intros (l' & E & _); discriminate].
Qed.

(** [evaluate] written on the floats it compares. *)
Lemma evaluate_eq m :
  evaluate m =
    if limit_reached (hard_limit_of m) (float (value_of m)) then
      (MandateStatus.BREACH, Some AlertSeverity.CRITICAL)
    else if limit_reached (soft_limit_of m) (float (value_of m)) then
      (MandateStatus.WARNING, Some AlertSeverity.WARNING)
    else (MandateStatus.OK, None).
Proof. rewrite <- float_or_zero_value. reflexivity. Qed.




(** The comparison is one of floats.  A hard limit of [2 ^ 53 + 1] is
    read as [2 ^ 53], so a value of [2 ^ 53] breaches it; and a value
    stored as the float nearest to 0.3, which is less than 0.3, breaches
    a limit of 0.3, which is read as that float. *)
Example evaluate_compares_floats :
  evaluate (mkMandate 1 "M1" "gross exposure" None (Some (2 ^ 53 + 1))
              (Some (2 ^ 53)) MandateStatus.OK true 0)
  = (MandateStatus.BREACH, Some AlertSeverity.CRITICAL)
  /\ evaluate (mkMandate 1 "M1" "gross exposure" None (Some (3 # 10))
                 (Some (5404319552844595 # 18014398509481984))
                 MandateStatus.OK true 0)
     = (MandateStatus.BREACH, Some AlertSeverity.CRITICAL).
Proof. vm_compute. split; reflexivity. Qed.

(** C10.  A hard or soft limit stored as 0 is skipped like a NULL one, and
    a NULL current value is judged like 0; with a hard limit of 0 the
    status is never BREACH, and with a soft limit of 0 never WARNING. *)
Theorem C10_zero_limit_is_unset
    (id : nat) (code descr : string) (soft hard cur : option Q)
    (st : MandateStatus.t) (active : bool) (t : nat) :
  evaluate (mkMandate id code descr soft (Some 0) cur st active t)
    = evaluate (mkMandate id code descr soft None cur st active t)
  /\ evaluate (mkMandate id code descr (Some 0) hard cur st active t)
    = evaluate (mkMandate id code descr None hard cur st active t)
  /\ evaluate (mkMandate id code descr soft hard None st active t)
    = evaluate (mkMandate id code descr soft hard (Some 0) st active t)
  /\ fst (evaluate (mkMandate id code descr soft (Some 0) cur st active t))
       <> MandateStatus.BREACH
  /\ fst (evaluate (mkMandate id code descr (Some 0) hard cur st active t))
       <> MandateStatus.WARNING.
Proof.
  rewrite !evaluate_eq; simpl. repeat split.
  - destruct (limit_reached _ _); simpl; congruence.
  - destruct (limit_reached _ _); simpl; congruence.
Qed.

(** ** Edge-triggered mandate alerts *)

(** The alerts stored for mandate [i], and the alerts broadcast for it. *)
Definition stored_alerts (i : nat) (w : World) : nat :=
  List.length (filter (fun r => Nat.eqb (ra_mandate_id r) i) (risk_alerts w)).

Definition is_alert_for (i : nat) (msg : WsMessage) : bool :=
  match msg with
  | MANDATE_ALERT a => Nat.eqb (a_mandate_id a) i
  | KILL_SWITCH _ _ _ _ _ _ => false
  end.

Definition sent_alerts (i : nat) (w : World) : nat :=
  List.length (filter (is_alert_for i) (ws_broadcasts w)).

(** The rows of mandate [i]: at most one when ids are unique. *)
Definition rows_of (i : nat) (w : World) : list Mandate :=
  filter (fun r => Nat.eqb (m_id r) i) (risk_mandates w).

(** At every point of the run, mandate [i] evaluates to status [s]. *)
Fixpoint steady (i : nat) (s : MandateStatus.t) (ops : list Op) (w : World)
  : Prop :=
  Forall (fun r => fst (evaluate r) = s) (rows_of i w)
  /\ match ops with
     | [] => True
     | op :: rest => steady i s rest (step op w)
     end.

(** The persisted status of mandate [i], where it is monitored, is [s]. *)
Definition settled (i : nat) (s : MandateStatus.t) (w : World) : Prop :=
  Forall (fun r => m_is_active r = true -> m_status r = s) (rows_of i w).

(** The three ways one iteration of the loop can go. *)
Lemma check_mandate_cases m w :
  (m_status m = fst (evaluate m) /\ check_mandate m w = w)
  \/ (m_status m <> fst (evaluate m) /\ snd (evaluate m) = None
      /\ check_mandate m w
         = update_mandate_status (m_id m) (fst (evaluate m)) w)
  \/ (m_status m <> fst (evaluate m)
      /\ exists sev alert,
           snd (evaluate m) = Some sev /\ a_mandate_id alert = m_id m
           /\ check_mandate m w
              = set_risk_alerts
                  (risk_alerts w
                     ++ [mkRiskAlertRow (m_id m) sev (a_message alert) alert])
                  (broadcast_alert (MANDATE_ALERT alert)
                     (set_next_id (S (next_id w))
                        (update_mandate_status (m_id m)
                           (fst (evaluate m)) w)))).
Proof.
  unfold check_mandate. destruct (evaluate m) as [st sev]. cbn [fst snd].
  destruct (MandateStatus.eqb (m_status m) st) eqn:E.
  - left. apply MandateStatus_eqb_eq in E. auto.
  - assert (m_status m <> st).
    { intros H. apply MandateStatus_eqb_eq in H. congruence. }
    destruct sev as [sev|].
    + right; right. split; trivial. do 2 eexists.
      split; [reflexivity|]. split; [|reflexivity]. reflexivity.
    + right; left. auto.
Qed.

Lemma length_filter_app {A} (f : A -> bool) l1 l2 :
  List.length (filter f (l1 ++ l2))
  = (List.length (filter f l1) + List.length (filter f l2))%nat.
Proof. now rewrite filter_app, length_app. Qed.

Lemma rows_of_update i j st w :
  rows_of i (update_mandate_status j st w)
  = if Nat.eqb i j then
      map (fun m => mkMandate (m_id m) (m_mandate_id m) (m_description m)
                      (m_soft_limit m) (m_hard_limit m) (m_current_value m)
                      st (m_is_active m) (now w))
          (rows_of i w)
    else rows_of i w.
Proof.
  unfold rows_of, update_mandate_status. simpl.
  induction (risk_mandates w) as [|r l IH]; simpl.
  - now destruct (Nat.eqb i j).
  - destruct (Nat.eqb (m_id r) j) eqn:Ej; simpl;
      destruct (Nat.eqb (m_id r) i) eqn:Ei; simpl;
      destruct (Nat.eqb i j) eqn:Eij; rewrite IH; simpl; try reflexivity;
      apply Nat.eqb_eq in Ei || apply Nat.eqb_neq in Ei;
      apply Nat.eqb_eq in Ej || apply Nat.eqb_neq in Ej;
      apply Nat.eqb_eq in Eij || apply Nat.eqb_neq in Eij;
      congruence.
Qed.

(** An iteration for another mandate leaves mandate [i] alone. *)
Lemma check_mandate_other i m w :
  m_id m <> i ->
  rows_of i (check_mandate m w) = rows_of i w
  /\ stored_alerts i (check_mandate m w) = stored_alerts i w
  /\ sent_alerts i (check_mandate m w) = sent_alerts i w.
Proof.
  intros Hne.
  assert (Eij : Nat.eqb i (m_id m) = false) by (apply Nat.eqb_neq; congruence).
  assert (Eji : Nat.eqb (m_id m) i = false) by (apply Nat.eqb_neq; congruence).
  destruct (check_mandate_cases m w)
    as [[_ ->] | [(_ & _ & ->) | (_ & sev & alert & _ & Ha & ->)]].
  - auto.
  - rewrite rows_of_update, Eij. auto.
  - unfold stored_alerts, sent_alerts. simpl.
    rewrite !length_filter_app. simpl. rewrite Ha, Eji. simpl.
    rewrite !Nat.add_0_r.
    split; [|split; reflexivity].
    change (rows_of i (update_mandate_status (m_id m) (fst (evaluate m)) w)
            = rows_of i w).
    now rewrite rows_of_update, Eij.
Qed.

Lemma fold_check_others i l : forall w,
  Forall (fun m => m_id m <> i) l ->
  let w' := fold_left (fun acc m => check_mandate m acc) l w in
  rows_of i w' = rows_of i w
  /\ stored_alerts i w' = stored_alerts i w
  /\ sent_alerts i w' = sent_alerts i w.
Proof.
  induction l as [|m l IH]; simpl; intros w Hl; [auto|].
  inversion Hl as [|? ? Hm Hl']; subst.
  destruct (IH (check_mandate m w) Hl') as (H1 & H2 & H3).
  destruct (check_mandate_other i m w Hm) as (G1 & G2 & G3).
  repeat split; congruence.
Qed.

(** The iteration for mandate [i] itself: at most one alert, and the
    persisted status becomes the evaluated one. *)
Lemma check_mandate_self i s m w :
  m_id m = i -> fst (evaluate m) = s ->
  (stored_alerts i (check_mandate m w) <= stored_alerts i w + 1)%nat
  /\ (sent_alerts i (check_mandate m w) <= sent_alerts i w + 1)%nat
  /\ (m_status m = s -> check_mandate m w = w)
  /\ (m_status m <> s ->
      Forall (fun r => m_status r = s) (rows_of i (check_mandate m w))).
Proof.
  intros Hi Hs. subst i.
  assert (Hupd : Forall (fun r => m_status r = s)
                   (rows_of (m_id m) (update_mandate_status (m_id m) s w))).
  { rewrite rows_of_update, Nat.eqb_refl.
    apply Forall_forall. intros r Hr. apply in_map_iff in Hr.
    destruct Hr as (r0 & <- & _). reflexivity. }
  destruct (check_mandate_cases m w)
    as [[E ->] | [(E & _ & ->) | (E & sev & alert & _ & Ha & ->)]];
    rewrite Hs in *.
  - repeat split; try lia. intros; contradiction.
  - repeat split; try (unfold stored_alerts, sent_alerts; simpl; lia).
    + intros; contradiction.
    + intros _. exact Hupd.
  - unfold stored_alerts, sent_alerts. simpl.
    rewrite !length_filter_app. simpl. rewrite Ha, Nat.eqb_refl. simpl.
    repeat split; try lia.
    + intros; contradiction.
    + intros _. exact Hupd.
Qed.

Lemma NoDup_ids_split i (l : list Mandate) :
  NoDup (map m_id l) ->
  Forall (fun m => m_id m <> i) l
  \/ exists l1 m l2,
       l = (l1 ++ m :: l2)%list /\ m_id m = i
       /\ Forall (fun m => m_id m <> i) l1
       /\ Forall (fun m => m_id m <> i) l2.
Proof.
  induction l as [|a l IH]; simpl; intros Hnd; [left; constructor|].
  inversion Hnd as [|? ? Hnot Hnd']; subst.
  destruct (Nat.eq_dec (m_id a) i) as [E|E].
  - right. exists [], a, l. repeat split; trivial.
    apply Forall_forall. intros x Hx Hxi. apply Hnot.
    apply in_map_iff. exists x. split; [congruence | trivial].
  - destruct (IH Hnd') as [H | (l1 & m & l2 & -> & Hm & H1 & H2)].
    + left. now constructor.
    + right. exists (a :: l1), m, l2. repeat split; trivial.
      now constructor.
Qed.

Lemma NoDup_map_filter {A B} (f : A -> B) (p : A -> bool) l :
  NoDup (map f l) -> NoDup (map f (filter p l)).
Proof.
  induction l as [|a l IH]; simpl; intros H; [constructor|].
  inversion H as [|? ? Hnot Hnd]; subst.
  destruct (p a); simpl; [|auto].
  constructor; [|auto].
  intros Hin. apply Hnot. apply in_map_iff in Hin.
  destruct Hin as (x & E & Hx). apply filter_In in Hx.
  apply in_map_iff. exists x. tauto.
Qed.

Lemma rows_of_In i w m :
  In m (risk_mandates w) -> m_id m = i -> In m (rows_of i w).
Proof.
  intros H E. apply filter_In. split; trivial. now apply Nat.eqb_eq.
Qed.

(** One monitoring pass over a table with unique ids. *)
Lemma check_mandate_breaches_pass i s w :
  NoDup (map m_id (risk_mandates w)) ->
  Forall (fun r => fst (evaluate r) = s) (rows_of i w) ->
  let w' := check_mandate_breaches w in
  (stored_alerts i w' <= stored_alerts i w + 1)%nat
  /\ (sent_alerts i w' <= sent_alerts i w + 1)%nat
  /\ settled i s w'
  /\ (settled i s w ->
      rows_of i w' = rows_of i w
      /\ stored_alerts i w' = stored_alerts i w
      /\ sent_alerts i w' = sent_alerts i w).
Proof.
  intros Hnd Hst. unfold check_mandate_breaches, settled.
  set (l := filter m_is_active (risk_mandates w)).
  assert (Hl : NoDup (map m_id l)) by now apply NoDup_map_filter.
  assert (Hrows : forall r, In r (rows_of i w) -> m_is_active r = true ->
                            In r l).
  { intros r Hr Ha. apply filter_In in Hr. apply filter_In. tauto. }
  destruct (NoDup_ids_split i l Hl)
    as [Hall | (l1 & m & l2 & El & Hm & H1 & H2)].
  - destruct (fold_check_others i l w Hall) as (R & S1 & S2).
    simpl. rewrite R, S1, S2. repeat split; try lia.
    apply Forall_forall. intros r Hr Ha.
    specialize (Hrows r Hr Ha).
    rewrite Forall_forall in Hall. specialize (Hall r Hrows).
    apply filter_In in Hr. destruct Hr as [_ Hr].
    apply Nat.eqb_eq in Hr. contradiction.
  - simpl. rewrite El, fold_left_app. simpl.
    set (w1 := fold_left (fun acc m => check_mandate m acc) l1 w).
    destruct (fold_check_others i l1 w H1) as (R1 & S1 & T1).
    fold w1 in R1, S1, T1.
    destruct (fold_check_others i l2 (check_mandate m w1) H2)
      as (R2 & S2 & T2).
    rewrite R2, S2, T2.
    assert (Hin : In m l) by (rewrite El; apply in_elt).
    assert (Hmw : In m (rows_of i w)).
    { apply filter_In in Hin. apply rows_of_In; tauto. }
    assert (Hms : fst (evaluate m) = s).
    { rewrite Forall_forall in Hst. now apply Hst. }
    destruct (check_mandate_self i s m w1 Hm Hms) as (A1 & A2 & A3 & A4).
    rewrite S1, T1 in *.
    repeat split; trivial.
    + destruct (MandateStatus.eqb (m_status m) s) eqn:E.
      * apply MandateStatus_eqb_eq in E. rewrite (A3 E), R1.
        apply Forall_forall. intros r Hr Ha.
        specialize (Hrows r Hr Ha).
        assert (r = m).
        { rewrite El in Hrows. apply in_app_or in Hrows.
          apply filter_In in Hr. destruct Hr as [_ Hr].
          apply Nat.eqb_eq in Hr.
          rewrite Forall_forall in H1, H2.
          destruct Hrows as [Hin1 | [Heq | Hin2]]; auto.
          - now apply H1 in Hin1.
          - now apply H2 in Hin2. }
        now subst r.
      * assert (Hne : m_status m <> s).
        { intros H. apply MandateStatus_eqb_eq in H. congruence. }
        eapply Forall_impl; [|exact (A4 Hne)]. auto.
    + assert (E : m_status m = s).
      { rewrite Forall_forall in H. apply H; trivial.
        apply filter_In in Hin. tauto. }
      now rewrite (A3 E).
    + assert (E : m_status m = s).
      { rewrite Forall_forall in H. apply H; trivial.
        apply filter_In in Hin. tauto. }
      now rewrite (A3 E).
    + assert (E : m_status m = s).
      { rewrite Forall_forall in H. apply H; trivial.
        apply filter_In in Hin. tauto. }
      now rewrite (A3 E).
Qed.

(** *** What the other operations leave alone *)

Ltac unfold_handler :=
  unfold kill_switch_endpoint, execute_kill_switch, require_permission,
    send_order, cancel_order, cancel_all_orders, insert_order, log_audit,
    try_except, call, bind, get, modify, ret, http, raise.

Ltac break_if :=
  match goal with
  | |- context [if ?b then _ else _] => destruct b eqn:?
  | |- context [match ?x with Some _ => _ | None => _ end] => destruct x eqn:?
  end.

Ltac run_handler := unfold_handler; repeat (break_if; cbn); cbn.

(** The part of the store the mandate monitor reads and writes. *)
Definition same_risk (w w' : World) : Prop :=
  risk_mandates w' = risk_mandates w
  /\ risk_alerts w' = risk_alerts w
  /\ forall i, sent_alerts i w' = sent_alerts i w.

Lemma same_risk_refl w : same_risk w w.
Proof. now repeat split. Qed.

Lemma same_risk_trans w1 w2 w3 :
  same_risk w1 w2 -> same_risk w2 w3 -> same_risk w1 w3.
Proof.
  intros (A1 & A2 & A3) (B1 & B2 & B3).
  split; [congruence | split; [congruence | intros i; now rewrite B3, A3]].
Qed.

Lemma same_risk_fields w w' :
  risk_mandates w' = risk_mandates w ->
  risk_alerts w' = risk_alerts w ->
  ws_broadcasts w' = ws_broadcasts w ->
  same_risk w w'.
Proof.
  intros H1 H2 H3. repeat split; trivial.
  intros i. unfold sent_alerts. now rewrite H3.
Qed.

Lemma send_order_same_risk order user w :
  same_risk w (fst (send_order order user w)).
Proof. apply same_risk_fields; run_handler; reflexivity. Qed.

Lemma cancel_order_same_risk order_id user w :
  same_risk w (fst (cancel_order order_id user w)).
Proof. apply same_risk_fields; run_handler; reflexivity. Qed.

Lemma cancel_all_orders_same_risk user w :
  same_risk w (fst (cancel_all_orders user w)).
Proof. apply same_risk_fields; run_handler; reflexivity. Qed.

Lemma kill_switch_same_risk fault request user w :
  same_risk w (fst (kill_switch_endpoint fault request user w)).
Proof.
  repeat split; [run_handler; reflexivity .. |].
  intros i. unfold sent_alerts. run_handler; try reflexivity;
    rewrite length_filter_app; simpl; lia.
Qed.

Lemma update_position_same_risk order q p w :
  same_risk w (update_position order q p w).
Proof.
  apply same_risk_fields; unfold update_position;
    destruct (fetch_position _ _ w); reflexivity.
Qed.

Lemma process_order_same_risk draw order w :
  same_risk w (process_order draw order w).
Proof.
  unfold process_order.
  destruct (Qlt_bool (d_chance draw) (3 # 10)); [|apply same_risk_refl].
  destruct (Qlt_bool 0 _); [|apply same_risk_refl].
  unfold apply_fill.
  eapply same_risk_trans; [|apply update_position_same_risk].
  apply same_risk_fields; reflexivity.
Qed.

Lemma process_orders_same_risk draws snapshot : forall i w,
  same_risk w (process_orders draws i snapshot w).
Proof.
  induction snapshot as [|o l IH]; simpl; intros i w.
  - apply same_risk_refl.
  - eapply same_risk_trans; [apply process_order_same_risk | apply IH].
Qed.

Lemma simulate_same_risk draws w :
  same_risk w (simulate_order_execution draws w).
Proof.
  unfold simulate_order_execution.
  eapply same_risk_trans; [apply process_orders_same_risk|].
  apply same_risk_fields; reflexivity.
Qed.

Lemma rows_of_set_current_value i j v w :
  rows_of i (set_current_value j v w)
  = if Nat.eqb i j then
      map (fun m => mkMandate (m_id m) (m_mandate_id m) (m_description m)
                      (m_soft_limit m) (m_hard_limit m) v
                      (m_status m) (m_is_active m) (m_updated_at m))
          (rows_of i w)
    else rows_of i w.
Proof.
  unfold rows_of, set_current_value. simpl.
  induction (risk_mandates w) as [|r l IH]; simpl.
  - now destruct (Nat.eqb i j).
  - destruct (Nat.eqb (m_id r) j) eqn:Ej; simpl;
      destruct (Nat.eqb (m_id r) i) eqn:Ei; simpl;
      destruct (Nat.eqb i j) eqn:Eij; rewrite IH; simpl; try reflexivity;
      apply Nat.eqb_eq in Ei || apply Nat.eqb_neq in Ei;
      apply Nat.eqb_eq in Ej || apply Nat.eqb_neq in Ej;
      apply Nat.eqb_eq in Eij || apply Nat.eqb_neq in Eij;
      congruence.
Qed.

(** No operation changes the ids of the mandate table. *)
Lemma step_mandate_ids op w :
  map m_id (risk_mandates (step op w)) = map m_id (risk_mandates w).
Proof.
  assert (Hmap : forall (f : Mandate -> Mandate) l,
             (forall m, m_id (f m) = m_id m) -> map m_id (map f l) = map m_id l).
  { intros f l Hf. rewrite map_map. apply map_ext. exact Hf. }
  destruct op; simpl;
    try (match goal with
         | |- context [risk_mandates ?x] =>
             let H := fresh in
             assert (H : same_risk w x)
               by first [ apply send_order_same_risk
                        | apply cancel_order_same_risk
                        | apply cancel_all_orders_same_risk
                        | apply simulate_same_risk
                        | apply kill_switch_same_risk ];
             destruct H as (-> & _); reflexivity
         end); try reflexivity.
  - unfold check_mandate_breaches.
    generalize (filter m_is_active (risk_mandates w)). intros l.
    revert w. induction l as [|m l IH]; simpl; intros w; [reflexivity|].
    rewrite IH.
    destruct (check_mandate_cases m w)
      as [[_ ->] | [(_ & _ & ->) | (_ & sev & alert & _ & _ & ->)]];
      trivial; simpl; apply Hmap; intros r; now destruct (Nat.eqb _ _).
  - apply Hmap. intros r; now destruct (Nat.eqb _ _).
Qed.

(** Apart from a monitoring pass, no operation stores or sends a mandate
    alert or changes a persisted mandate status. *)
Lemma step_not_check i s op w :
  op <> CheckMandates ->
  stored_alerts i (step op w) = stored_alerts i w
  /\ sent_alerts i (step op w) = sent_alerts i w
  /\ (settled i s w -> settled i s (step op w)).
Proof.
  intros Hop.
  assert (Hsame : forall w', same_risk w w' ->
            stored_alerts i w' = stored_alerts i w
            /\ sent_alerts i w' = sent_alerts i w
            /\ (settled i s w -> settled i s w')).
  { intros w' (H1 & H2 & H3). unfold stored_alerts, settled, rows_of.
    rewrite H1, H2, H3. auto. }
  destruct op; simpl; try contradiction;
    try (apply Hsame;
         first [ apply send_order_same_risk
               | apply cancel_order_same_risk
               | apply cancel_all_orders_same_risk
               | apply simulate_same_risk
               | apply kill_switch_same_risk
               | apply same_risk_fields; reflexivity ]).
  repeat split; trivial.
  unfold settled. rewrite rows_of_set_current_value.
  destruct (Nat.eqb i mandate); trivial.
  intros H. apply Forall_forall. intros r Hr.
  apply in_map_iff in Hr. destruct Hr as (r0 & <- & Hr0). simpl.
  rewrite Forall_forall in H. now apply H.
Qed.

Lemma steady_head i s ops w :
  steady i s ops w -> Forall (fun r => fst (evaluate r) = s) (rows_of i w).
Proof. destruct ops; simpl; tauto. Qed.

Lemma NoDup_step op w :
  NoDup (map m_id (risk_mandates w)) ->
  NoDup (map m_id (risk_mandates (step op w))).
Proof. now rewrite step_mandate_ids. Qed.

(** Once the persisted status is the evaluated one, a run in which the
    evaluated status stays the same emits nothing for that mandate. *)
Lemma settled_run_silent i s ops : forall w,
  NoDup (map m_id (risk_mandates w)) ->
  settled i s w -> steady i s ops w ->
  stored_alerts i (run ops w) = stored_alerts i w
  /\ sent_alerts i (run ops w) = sent_alerts i w.
Proof.
  induction ops as [|op ops IH]; simpl; intros w Hnd Hq [Hs Hrest]; [auto|].
  assert (Hstep : stored_alerts i (step op w) = stored_alerts i w
                  /\ sent_alerts i (step op w) = sent_alerts i w
                  /\ settled i s (step op w)).
  { destruct op;
      try (match goal with
           | |- context [step ?o w] =>
               destruct (step_not_check i s o w ltac:(discriminate))
                 as (A & B & C); solve [auto]
           end).
    destruct (check_mandate_breaches_pass i s w Hnd Hs) as (_ & _ & C & D).
    destruct (D Hq) as (_ & A & B). auto. }
  destruct Hstep as (A & B & C).
  destruct (IH (step op w) (NoDup_step op w Hnd) C Hrest) as (A' & B').
  unfold run in *. simpl. split; congruence.
Qed.

Lemma evaluate_OK_no_alert m :
  fst (evaluate m) = MandateStatus.OK -> snd (evaluate m) = None.
Proof.
  rewrite evaluate_eq.
  destruct (limit_reached (hard_limit_of m) _); [discriminate|].
  destruct (limit_reached (soft_limit_of m) _); [discriminate|].
  reflexivity.
Qed.

(** C3.  Mandate alerts are edge-triggered.  An iteration that evaluates a
    mandate to its persisted status changes nothing: no alert, no status
    write.  An iteration that takes a mandate back to OK writes the status
    and nothing else.  And over any run of the system in which a mandate
    keeps evaluating to the same status, whatever else happens in between,
    at most one alert is stored and at most one is broadcast for it. *)
Theorem C3_alerts_edge_triggered :
  (forall m w, m_status m = fst (evaluate m) -> check_mandate m w = w)
  /\ (forall m w,
        fst (evaluate m) = MandateStatus.OK ->
        m_status m <> MandateStatus.OK ->
        check_mandate m w
        = update_mandate_status (m_id m) MandateStatus.OK w)
  /\ (forall i s ops w,
        NoDup (map m_id (risk_mandates w)) ->
        steady i s ops w ->
        (stored_alerts i (run ops w) <= stored_alerts i w + 1)%nat
        /\ (sent_alerts i (run ops w) <= sent_alerts i w + 1)%nat).
Proof.
  split; [|split].
  - intros m w H.
    destruct (check_mandate_cases m w)
      as [[_ E] | [(N & _) | (N & _)]]; trivial; contradiction.
  - intros m w H N.
    pose proof (evaluate_OK_no_alert m H) as Hsev.
    destruct (check_mandate_cases m w)
      as [[E _] | [(_ & _ & E) | (_ & sev & alert & E & _)]].
    + congruence.
    + now rewrite E, H.
    + congruence.
  - intros i s ops. induction ops as [|op ops IH]; intros w Hnd Hst.
    + simpl. lia.
    + destruct Hst as [Hs Hrest].
      change (run (op :: ops) w) with (run ops (step op w)).
      destruct op;
        try (match goal with
             | |- context [step ?o w] =>
                 destruct (step_not_check i s o w ltac:(discriminate))
                   as (A & B & _);
                 destruct (IH (step o w) (NoDup_step o w Hnd) Hrest);
                 lia
             end).
      destruct (check_mandate_breaches_pass i s w Hnd Hs) as (A & B & C & _).
      destruct (settled_run_silent i s ops (step CheckMandates w)
                  (NoDup_step CheckMandates w Hnd) C Hrest) as (A' & B').
      simpl in *. lia.
Qed.

(** A store with one monitored mandate, soft limit 100 and hard limit 150,
    whose value 160 has not been judged yet. *)
Definition one_mandate : World :=
  set_risk_mandates
    [mkMandate 1 "M1" "gross exposure" (Some 100) (Some 150) (Some 160)
       MandateStatus.OK true 0]
    empty_world.

Definition breach_run : list Op :=
  [CheckMandates; Tick; CheckMandates; SetCurrentValue 1 (Some 170);
   CheckMandates].

(** [steady], decided by running the operations. *)
Fixpoint steadyb (i : nat) (s : MandateStatus.t) (ops : list Op) (w : World)
  : bool :=
  forallb (fun r => MandateStatus.eqb (fst (evaluate r)) s) (rows_of i w)
  && match ops with
     | [] => true
     | op :: rest => steadyb i s rest (step op w)
     end.

Lemma steadyb_steady i s ops : forall w,
  steadyb i s ops w = true -> steady i s ops w.
Proof.
  induction ops as [|op ops IH]; intros w H; cbn [steadyb steady] in *;
    apply andb_true_iff in H; destruct H as [H1 H2];
    (split; [|try exact I; try now apply IH]);
    apply Forall_forall; intros r Hr;
    rewrite forallb_forall in H1;
    now apply MandateStatus_eqb_eq, H1.
Qed.

(** C3 at work: three passes over a mandate that stays in BREACH, with
    time passing and its value moving from 160 to 170 in between. *)
Lemma C3_alerts_edge_triggered_witness :
  (stored_alerts 1 (run breach_run one_mandate)
   <= stored_alerts 1 one_mandate + 1)%nat
  /\ (sent_alerts 1 (run breach_run one_mandate)
      <= sent_alerts 1 one_mandate + 1)%nat.
Proof.
  apply (proj2 (proj2 C3_alerts_edge_triggered) 1%nat MandateStatus.BREACH).
  - simpl. constructor; [intros [] | constructor].
  - apply steadyb_steady. vm_compute. reflexivity.
Defined.

(** ** Order submission *)

(** The rejections of [send_order], by the names the specification gives
    them. *)
Definition Forbidden : Exn :=
  Http (mkHTTPException 403 "Viewers cannot submit orders").

Definition HaltActive : Exn :=
  Http (mkHTTPException 403 "Trading suspended - Kill switch active").

Definition UnknownSymbol (symbol : string) : Exn :=
  Http (mkHTTPException 400 ("Unknown symbol: " ++ symbol)).

(** A caller has trading capability unless its role is VIEWER. *)
Definition may_trade (user : UserContext) : bool :=
  negb (String.eqb (role user) "VIEWER").

(** A store in which the kill switch has been thrown, a viewer, and an
    order for a symbol that has a price. *)
Definition halted_world : World :=
  set_prices [("AAPL", 50)]
    (set_system_state [mkSystemState "kill_switch_active" (JBool true) 0]
       empty_world).

Definition viewer : UserContext := mkUserContext 7 "vera" "vera@athena" "VIEWER".

Definition buy_100_AAPL : OrderCreate :=
  mkOrderCreate "AAPL" OrderSide.BUY OrderType.LIMIT 100 (Some 50) None
    (Some 3%nat).

(** C5, as stated, fails: with the halt flag set, a request of a caller
    without trading capability is rejected with Forbidden, not with
    HaltActive, because the role is checked first. *)
Lemma C5_counterexample :
  kill_switch_active halted_world = true
  /\ send_order buy_100_AAPL viewer halted_world
     = (halted_world, Raise Forbidden)
  /\ Forbidden <> HaltActive.
Proof.
  split; [reflexivity|]. split; [reflexivity|]. discriminate.
Qed.

(** C5, amended.  [send_order] checks, in this order, the caller's role,
    the halt flag and the reference price: it fails with Forbidden when the
    caller lacks trading capability; otherwise with HaltActive when the
    halt flag is set; otherwise with UnknownSymbol when the symbol has no
    reference price.  So while the halt flag is set every request is
    rejected, and every rejection leaves the store as it was: no order is
    created. *)
Theorem C5_submit_rejections
    (order : OrderCreate) (user : UserContext) (w : World) :
  (may_trade user = false ->
   send_order order user w = (w, Raise Forbidden))
  /\ (may_trade user = true -> kill_switch_active w = true ->
      send_order order user w = (w, Raise HaltActive))
  /\ (may_trade user = true -> kill_switch_active w = false ->
      get_price (oc_symbol order) w = None ->
      send_order order user w = (w, Raise (UnknownSymbol (oc_symbol order))))
  /\ (kill_switch_active w = true ->
      exists e, send_order order user w = (w, Raise e))
  /\ (forall e, snd (send_order order user w) = Raise e ->
      fst (send_order order user w) = w).
Proof.
  unfold may_trade, Forbidden, HaltActive, UnknownSymbol.
  unfold send_order, bind, get, http, raise.
  destruct (String.eqb (role user) "VIEWER"); simpl.
  - repeat split; try discriminate; eauto.
  - destruct (kill_switch_active w); simpl.
    + repeat split; try discriminate; eauto.
    + destruct (get_price (oc_symbol order) w); simpl.
      * repeat split; try discriminate.
      * repeat split; try discriminate; eauto.
Qed.

Definition trader : UserContext := mkUserContext 8 "tom" "tom@athena" "QUANT".

(** C5 at work: a trader's order is rejected with HaltActive while the
    halt flag is set. *)
Lemma C5_submit_rejections_witness :
  send_order buy_100_AAPL trader halted_world = (halted_world, Raise HaltActive).
Proof.
  apply (proj1 (proj2 (C5_submit_rejections buy_100_AAPL trader halted_world)));
    reflexivity.
Defined.

(** ** Cancelling one order *)

Definition InvalidState (s : OrderStatus.t) : Exn :=
  Http (mkHTTPException 400
          ("Cannot cancel order with status: " ++ status_value s)).

(** The outcome the specification calls a signal rather than an error:
    the handler returns instead of raising. *)
Definition returns {A} (r : World * Result A) : Prop :=
  exists a, snd r = Return a.

(** A store holding one order that has already been cancelled. *)
Definition cancelled_order : Order :=
  mkOrder 0 (Some 3%nat) "AAPL" OrderSide.BUY OrderType.LIMIT 100 (Some 50) None
    0 None OrderStatus.CANCELLED 8 0.

Definition one_cancelled : World := set_orders [cancelled_order] empty_world.

(** C7, as stated, fails: cancelling an order that is already CANCELLED
    does not return; it raises the same HTTP 400 error as for any other
    terminal status. *)
Lemma C7_counterexample :
  cancel_order 0 trader one_cancelled
  = (one_cancelled, Raise (InvalidState OrderStatus.CANCELLED))
  /\ ~ returns (cancel_order 0 trader one_cancelled).
Proof.
  split; [reflexivity|]. intros [a H]. discriminate H.
Qed.

(** C7, amended.  Cancelling an order that is already terminal (FILLED,
    CANCELLED or REJECTED), by a caller who is not a VIEWER, is rejected
    with the HTTP 400 error naming its status, and leaves the store, the
    order included, unchanged. *)
Theorem C7_cancel_terminal
    (order_id : nat) (user : UserContext) (w : World) (order : Order) :
  may_trade user = true ->
  find (fun o => Nat.eqb (o_id o) order_id) (orders w) = Some order ->
  is_terminal (o_status order) = true ->
  cancel_order order_id user w = (w, Raise (InvalidState (o_status order))).
Proof.
  unfold may_trade, InvalidState, cancel_order, bind, get, http, raise.
  intros Hrole Hfind Hterm.
  destruct (String.eqb (role user) "VIEWER"); [discriminate|].
  simpl. rewrite Hfind, Hterm. reflexivity.
Qed.

Lemma C7_cancel_terminal_witness :
  cancel_order 0 trader one_cancelled
  = (one_cancelled, Raise (InvalidState OrderStatus.CANCELLED)).
Proof.
  apply (C7_cancel_terminal 0 trader one_cancelled cancelled_order);
    reflexivity.
Defined.

(** ** The kill switch *)

Definition NotConfirmed : Exn :=
  Http (mkHTTPException 400 "Kill switch must be explicitly confirmed").

(** C6.  Without confirmation the kill switch is rejected with
    NotConfirmed and the whole store is left as it was: no table row, no
    log line, no broadcast and no published message changes.  The same
    holds for the endpoint with its permission check, whatever the role
    of the caller. *)
Theorem C6_not_confirmed_no_effect
    (fault : nat -> bool) (request : KillSwitchRequest)
    (user : UserContext) (w : World) :
  ks_confirm request = false ->
  execute_kill_switch fault request user w = (w, Raise NotConfirmed)
  /\ fst (kill_switch_endpoint fault request user w) = w.
Proof.
  intros H.
  unfold kill_switch_endpoint, require_permission, execute_kill_switch,
    bind, ret, http, raise.
  rewrite H. simpl. split; [reflexivity|].
  destruct (has_permission (role user) "kill_switch"); reflexivity.
Qed.

Definition admin : UserContext := mkUserContext 9 "ada" "ada@athena" "ADMIN".

(** A store with a pending, an open and a partially filled order, two
    positions, two strategies and the two rows of [system_state]. *)
Definition trading_world : World :=
  mkWorld
    [ mkOrder 0 (Some 3%nat) "AAPL" OrderSide.BUY OrderType.LIMIT 100
        (Some 50) None 0 None OrderStatus.PENDING 8 0;
      mkOrder 1 (Some 3%nat) "MSFT" OrderSide.SELL OrderType.MARKET 10
        (Some 300) None 0 None OrderStatus.OPEN 8 0;
      mkOrder 2 (Some 3%nat) "AAPL" OrderSide.BUY OrderType.LIMIT 100
        (Some 50) None 60 (Some 50) OrderStatus.PARTIAL 8 0 ]
    [ mkFill 2 60 50 ]
    [ mkPosition 4 (Some 3%nat) "AAPL" 60 50 50 0 ]
    [ mkStrategy 3 StrategyStatus.ACTIVE 0 ]
    [ mkSystemState "kill_switch_active" (JBool false) 0;
      mkSystemState "system_status" (JStr "NORMAL") 0 ]
    [] [] [] 5%nat 1%nat [("AAPL", 50); ("MSFT", 300)] None [] [] [].

Lemma C6_not_confirmed_no_effect_witness :
  execute_kill_switch no_fault (mkKillSwitchRequest "drill" false) admin
    trading_world
  = (trading_world, Raise NotConfirmed)
  /\ fst (kill_switch_endpoint no_fault (mkKillSwitchRequest "drill" false)
            admin trading_world)
     = trading_world.
Proof.
  apply (C6_not_confirmed_no_effect no_fault
           (mkKillSwitchRequest "drill" false) admin trading_world).
  reflexivity.
Defined.

Definition confirmed_halt : KillSwitchRequest :=
  mkKillSwitchRequest "limit breach" true.

(** C1: what the code does on a store that holds a partially filled
    order.  The kill switch succeeds and cancels the PENDING and the OPEN
    order, but its WHERE clause names only those two statuses: the PARTIAL
    order is still there, still PARTIAL, and it is still open for the fill
    loop and for [cancel_all_orders]. *)
Lemma C1_partial_order_survives :
  let r := kill_switch_endpoint no_fault confirmed_halt admin trading_world in
  (exists resp, snd r = Return resp /\ kr_success resp = true
                /\ kr_orders_cancelled resp = 2%nat)
  /\ map o_status (orders (fst r))
     = [OrderStatus.CANCELLED; OrderStatus.CANCELLED; OrderStatus.PARTIAL]
  /\ List.length (filter is_open (orders (fst r))) = 1%nat
  /\ kill_switch_active (fst r) = true.
Proof.
  vm_compute. repeat split. eexists. repeat split.
Qed.

(** What the kill switch does achieve when it returns: no order is left
    PENDING or OPEN. *)
Lemma cancel_open_orders_spec w o :
  In o (orders (cancel_open_orders w)) -> pending_or_open o = false.
Proof.
  unfold cancel_open_orders. simpl. intros H. apply in_map_iff in H.
  destruct H as (o0 & <- & _).
  destruct (pending_or_open o0) eqn:E; [reflexivity | exact E].
Qed.

(** Call [k] is the first call of the handler that fails. *)
Definition first_fault (fault : nat -> bool) (k : nat) : Prop :=
  fault k = true /\ forall j, (1 <= j < k)%nat -> fault j = false.

(** C2, as stated, fails: when the statement that zeroes the positions
    fails (call 5) the handler reports failure and the halt flag stays
    unset, but the orders cancelled by call 3 stay cancelled. *)
Lemma C2_counterexample :
  let r := execute_kill_switch (Nat.eqb 5) confirmed_halt admin trading_world in
  snd r = Raise (Http (mkHTTPException 500
                         "Kill switch failed: call 5 failed"))
  /\ kill_switch_active (fst r) = false
  /\ positions (fst r) = positions trading_world
  /\ map o_status (orders trading_world)
     = [OrderStatus.PENDING; OrderStatus.OPEN; OrderStatus.PARTIAL]
  /\ map o_status (orders (fst r))
     = [OrderStatus.CANCELLED; OrderStatus.CANCELLED; OrderStatus.PARTIAL]
  /\ orders (fst r) <> orders trading_world.
Proof.
  vm_compute. repeat split. discriminate.
Qed.

(** C2, amended.  When a call of the confirmed kill switch fails, the
    handler raises, so the operation is reported failed; the statements
    that ran before the failing call stay in effect and the later ones do
    not run: the orders stay cancelled once call 3 has run, the positions
    stay zeroed once call 5 has run, the strategies stay halted once call 6
    has run, and [system_state], the halt flag with it, is untouched as
    long as the failure comes no later than call 7. *)
Theorem C2_failure_keeps_earlier_writes
    (fault : nat -> bool) (request : KillSwitchRequest)
    (user : UserContext) (w : World) (k : nat) :
  ks_confirm request = true ->
  first_fault fault k -> (1 <= k <= 10)%nat ->
  let r := execute_kill_switch fault request user w in
  (exists e, snd r = Raise e)
  /\ orders (fst r)
     = (if (k <=? 3)%nat then orders w else orders (cancel_open_orders w))
  /\ positions (fst r)
     = (if (k <=? 5)%nat then positions w
        else positions (close_all_positions w))
  /\ strategies (fst r)
     = (if (k <=? 6)%nat then strategies w
        else strategies (halt_active_strategies w))
  /\ ((k <= 7)%nat ->
      system_state (fst r) = system_state w
      /\ kill_switch_active (fst r) = kill_switch_active w).
Proof.
  intros Hc [Hk Hlt] Hrange.
  assert (Hks : forall w', system_state w' = system_state w ->
                           kill_switch_active w' = kill_switch_active w).
  { intros w' E. unfold kill_switch_active, fetch_system_state. now rewrite E. }
  unfold execute_kill_switch. rewrite Hc.
  unfold try_except, call, bind, get, modify, ret, http, raise, log_audit.
  cbn [negb].
  assert (Hcases : In k (seq 1 10)) by (apply in_seq; lia).
  cbn [seq In] in Hcases.
  repeat (destruct Hcases as [Hcases | Hcases]); try contradiction;
    subst k; cbn [Nat.leb];
    repeat (first [ rewrite Hk | rewrite (Hlt _) by lia ]; cbn [fst snd]);
    (split; [eexists; reflexivity|]);
    repeat split; try reflexivity; try lia;
    intros _; apply Hks; reflexivity.
Qed.

Lemma C2_failure_keeps_earlier_writes_witness :
  let r := execute_kill_switch (Nat.eqb 5) confirmed_halt admin trading_world in
  (exists e, snd r = Raise e)
  /\ orders (fst r) = orders (cancel_open_orders trading_world)
  /\ positions (fst r) = positions trading_world
  /\ strategies (fst r) = strategies trading_world
  /\ ((5 <= 7)%nat ->
      system_state (fst r) = system_state trading_world
      /\ kill_switch_active (fst r) = kill_switch_active trading_world).
Proof.
  apply (C2_failure_keeps_earlier_writes (Nat.eqb 5) confirmed_halt admin
           trading_world 5).
  - reflexivity.
  - split; [reflexivity|]. intros j Hj.
    do 5 (destruct j as [|j]; [first [lia | reflexivity]|]). lia.
  - lia.
Defined.

(** ** Orders, fills and positions: the shape of the store *)

(** Primary keys are unique and were handed out by [next_id]; every fill
    names an order id that was handed out. *)
Definition well_formed (w : World) : Prop :=
  NoDup (map o_id (orders w))
  /\ NoDup (map p_id (positions w))
  /\ Forall (fun i => (i < next_id w)%nat) (map o_id (orders w))
  /\ Forall (fun i => (i < next_id w)%nat) (map p_id (positions w))
  /\ Forall (fun i => (i < next_id w)%nat) (map f_order_id (fills w)).

Lemma Forall_lt_mono (l : list nat) (a b : nat) :
  (a <= b)%nat -> Forall (fun i => (i < a)%nat) l ->
  Forall (fun i => (i < b)%nat) l.
Proof. intros H. apply Forall_impl. intros; lia. Qed.

Lemma well_formed_ids w w' :
  well_formed w ->
  map o_id (orders w') = map o_id (orders w) ->
  map p_id (positions w') = map p_id (positions w) ->
  map f_order_id (fills w') = map f_order_id (fills w) ->
  (next_id w <= next_id w')%nat ->
  well_formed w'.
Proof.
  intros (H1 & H2 & H3 & H4 & H5) E1 E2 E3 Hn. unfold well_formed.
  rewrite E1, E2, E3.
  repeat split; trivial; eapply Forall_lt_mono; eauto.
Qed.

Lemma NoDup_snoc_fresh (l : list nat) (n : nat) :
  NoDup l -> Forall (fun i => (i < n)%nat) l -> NoDup (l ++ [n]).
Proof.
  intros Hnd Hlt. apply NoDup_app; trivial.
  - constructor; [intros [] | constructor].
  - intros a Ha [<- | []]. rewrite Forall_forall in Hlt.
    apply Hlt in Ha. lia.
Qed.

Lemma Forall_lt_snoc (l : list nat) (n : nat) :
  Forall (fun i => (i < n)%nat) l ->
  Forall (fun i => (i < S n)%nat) (l ++ [n]).
Proof.
  intros H. apply Forall_app. split.
  - eapply Forall_lt_mono; [|exact H]. lia.
  - constructor; [lia | constructor].
Qed.

Lemma well_formed_new_order w w' row :
  well_formed w ->
  o_id row = next_id w ->
  orders w' = (orders w ++ [row])%list ->
  positions w' = positions w ->
  fills w' = fills w ->
  next_id w' = S (next_id w) ->
  well_formed w'.
Proof.
  intros (H1 & H2 & H3 & H4 & H5) Eid E1 E2 E3 En. unfold well_formed.
  rewrite E1, E2, E3, En, map_app. simpl. rewrite Eid.
  repeat split; trivial.
  - now apply NoDup_snoc_fresh.
  - now apply Forall_lt_snoc.
  - eapply Forall_lt_mono; [|exact H4]. lia.
  - eapply Forall_lt_mono; [|exact H5]. lia.
Qed.

Lemma map_id_preserved {A} (key : A -> nat) (g : A -> A) (l : list A) :
  (forall a, key (g a) = key a) -> map key (map g l) = map key l.
Proof. intros H. rewrite map_map. now apply map_ext. Qed.

Ltac same_ids :=
  cbn;
  first [ reflexivity
        | lia
        | apply map_id_preserved; intros ?; repeat break_if; reflexivity ].

Lemma send_order_well_formed order user w :
  well_formed w -> well_formed (fst (send_order order user w)).
Proof.
  intros H. unfold send_order, bind, get, http, raise.
  destruct (String.eqb (role user) "VIEWER"); [exact H|]. cbn.
  destruct (kill_switch_active w); [exact H|]. cbn.
  destruct (get_price (oc_symbol order) w); [|exact H].
  eapply well_formed_new_order; [exact H | | cbn; reflexivity | ..];
    reflexivity.
Qed.

Lemma cancel_order_well_formed order_id user w :
  well_formed w -> well_formed (fst (cancel_order order_id user w)).
Proof.
  intros H. run_handler; try exact H.
  apply (well_formed_ids w); trivial; same_ids.
Qed.

Lemma cancel_all_orders_well_formed user w :
  well_formed w -> well_formed (fst (cancel_all_orders user w)).
Proof.
  intros H. run_handler; try exact H.
  apply (well_formed_ids w); trivial; same_ids.
Qed.

Lemma kill_switch_well_formed fault request user w :
  well_formed w ->
  well_formed (fst (kill_switch_endpoint fault request user w)).
Proof.
  intros H. run_handler; try exact H;
    apply (well_formed_ids w); trivial; same_ids.
Qed.

Lemma fold_check_next_id l : forall w,
  let w' := fold_left (fun acc m => check_mandate m acc) l w in
  orders w' = orders w /\ positions w' = positions w /\ fills w' = fills w
  /\ (next_id w <= next_id w')%nat.
Proof.
  induction l as [|m l IH]; simpl; intros w; [repeat split; lia|].
  destruct (IH (check_mandate m w)) as (A & B & C & D).
  rewrite A, B, C.
  destruct (check_mandate_cases m w)
    as [[_ E] | [(_ & _ & E) | (_ & sev & alert & _ & _ & E)]];
    rewrite E in *; cbn in *; repeat split; lia.
Qed.

Lemma check_mandate_breaches_well_formed w :
  well_formed w -> well_formed (check_mandate_breaches w).
Proof.
  intros H. unfold check_mandate_breaches.
  destruct (fold_check_next_id (filter m_is_active (risk_mandates w)) w)
    as (A & B & C & D).
  apply (well_formed_ids w); trivial; congruence.
Qed.

Lemma In_ids_lt {A} (key : A -> nat) (l : list A) (n : nat) (a : A) :
  Forall (fun i => (i < n)%nat) (map key l) -> In a l -> (key a < n)%nat.
Proof.
  intros H Ha. rewrite Forall_forall in H. apply H. now apply in_map.
Qed.

Lemma update_position_effect order q p w :
  orders (update_position order q p w) = orders w
  /\ fills (update_position order q p w) = fills w
  /\ (next_id w <= next_id (update_position order q p w))%nat.
Proof.
  unfold update_position. destruct (fetch_position _ _ w); cbn;
    repeat split; lia.
Qed.

Lemma update_position_well_formed order q p w :
  well_formed w -> well_formed (update_position order q p w).
Proof.
  intros H. unfold update_position.
  destruct (fetch_position _ _ w) as [pos|].
  - apply (well_formed_ids w); trivial; same_ids.
  - destruct H as (H1 & H2 & H3 & H4 & H5). unfold well_formed. cbn.
    rewrite map_app. cbn. repeat split; trivial.
    + now apply NoDup_snoc_fresh.
    + eapply Forall_lt_mono; [|exact H3]. lia.
    + now apply Forall_lt_snoc.
    + eapply Forall_lt_mono; [|exact H5]. lia.
Qed.

(** The order row as [apply_fill] rewrites it. *)
Definition filled_row (order : Order) (fill_qty fill_price : Q) (t : nat)
    (o : Order) : Order :=
  if Nat.eqb (o_id o) (o_id order) then
    mkOrder (o_id o) (o_strategy_id o) (o_symbol o) (o_side o)
      (o_order_type o) (o_quantity o) (o_price o) (o_stop_price o)
      (o_filled_quantity order + fill_qty) (Some fill_price)
      (if Qle_bool (o_quantity order) (o_filled_quantity order + fill_qty)
       then OrderStatus.FILLED else OrderStatus.PARTIAL)
      (o_created_by o) t
  else o.

Lemma apply_fill_effect order q p w :
  orders (apply_fill order q p w) = map (filled_row order q p (now w)) (orders w)
  /\ fills (apply_fill order q p w)
     = (fills w ++ [mkFill (o_id order) q p])%list
  /\ (next_id w <= next_id (apply_fill order q p w))%nat.
Proof.
  unfold apply_fill.
  match goal with
  | |- context [update_position order q p ?x] =>
      destruct (update_position_effect order q p x) as (A & B & C);
      rewrite A, B
  end.
  repeat split; trivial.
Qed.

Lemma apply_fill_well_formed order q p w :
  well_formed w -> In order (orders w) ->
  well_formed (apply_fill order q p w).
Proof.
  intros H Hin. unfold apply_fill. apply update_position_well_formed.
  destruct H as (H1 & H2 & H3 & H4 & H5). unfold well_formed. cbn.
  rewrite map_id_preserved
    by (intros a; destruct (Nat.eqb (o_id a) (o_id order)); reflexivity).
  rewrite map_app. cbn. repeat split; trivial.
  apply Forall_app. split; trivial.
  constructor; [|constructor]. eapply In_ids_lt; eauto.
Qed.

Lemma process_order_cases draw order w :
  process_order draw order w = w
  \/ (0 < uniform 0 (o_quantity order - o_filled_quantity order)
            (d_uniform draw)
      /\ process_order draw order w
         = apply_fill order
             (uniform 0 (o_quantity order - o_filled_quantity order)
                (d_uniform draw))
             (fill_price_of order w) w).
Proof.
  unfold process_order.
  destruct (Qlt_bool (d_chance draw) (3 # 10)); [|now left].
  destruct (Qlt_bool 0 _) eqn:E; [|now left].
  right. split; [|reflexivity].
  unfold Qlt_bool in E. apply negb_true_iff in E.
  apply Qnot_le_lt. intros H. apply Qle_bool_iff in H. congruence.
Qed.

Lemma NoDup_ids_eq {A} (key : A -> nat) (l : list A) (a b : A) :
  NoDup (map key l) -> In a l -> In b l -> key a = key b -> a = b.
Proof.
  induction l as [|x l IH]; simpl; intros Hnd Ha Hb E; [contradiction|].
  inversion Hnd as [|? ? Hnot Hnd']; subst.
  destruct Ha as [<- | Ha], Hb as [<- | Hb]; trivial.
  - exfalso. apply Hnot. rewrite E. now apply in_map.
  - exfalso. apply Hnot. rewrite <- E. now apply in_map.
  - now apply IH.
Qed.

(** Processing one order of the snapshot leaves the others as they were. *)
Lemma process_order_keeps_others draw order w o :
  In o (orders w) -> o_id o <> o_id order ->
  In o (orders (process_order draw order w)).
Proof.
  intros Hin Hne.
  destruct (process_order_cases draw order w) as [-> | (_ & ->)]; trivial.
  destruct (apply_fill_effect order
              (uniform 0 (o_quantity order - o_filled_quantity order)
                 (d_uniform draw)) (fill_price_of order w) w) as (-> & _).
  apply in_map_iff. exists o. split; trivial.
  unfold filled_row. apply Nat.eqb_neq in Hne. now rewrite Hne.
Qed.

(** A property of the store that every iteration of the fill loop keeps,
    as long as the row it works on is the current row of its order, is
    kept by the loop over a snapshot with unique ids. *)
Lemma process_orders_invariant (P : World -> Prop) (draws : nat -> Draw) :
  (forall i order w,
     P w -> In order (orders w) -> P (process_order (draws i) order w)) ->
  forall snapshot i w,
    NoDup (map o_id snapshot) ->
    Forall (fun o => In o (orders w)) snapshot ->
    P w -> P (process_orders draws i snapshot w).
Proof.
  intros Hstep snapshot.
  induction snapshot as [|o rest IH]; simpl; intros i w Hnd Hin HP; trivial.
  inversion Hnd as [|? ? Hnot Hnd']; subst.
  inversion Hin as [|? ? Ho Hrest]; subst.
  apply IH; trivial.
  - apply Forall_forall. intros o' Ho'.
    apply process_order_keeps_others.
    + rewrite Forall_forall in Hrest. now apply Hrest.
    + intros E. apply Hnot. rewrite <- E. now apply in_map.
  - now apply Hstep.
Qed.

Lemma NoDup_firstn {A} (n : nat) (l : list A) : NoDup l -> NoDup (firstn n l).
Proof.
  revert n. induction l as [|a l IH]; intros [|n] H; simpl;
    try constructor.
  - inversion H as [|? ? Hnot Hnd]; subst. intros Hin. apply Hnot.
    rewrite <- (firstn_skipn n l). apply in_or_app. now left.
  - inversion H; subst. now apply IH.
Qed.

Lemma snapshot_ok w :
  NoDup (map o_id (orders w)) ->
  let snapshot := firstn 10 (filter is_open (orders w)) in
  NoDup (map o_id snapshot)
  /\ Forall (fun o => In o (orders w)) snapshot.
Proof.
  intros Hnd. split.
  - rewrite <- firstn_map. apply NoDup_firstn. now apply NoDup_map_filter.
  - apply Forall_forall. intros o Ho.
    assert (In o (filter is_open (orders w))).
    { rewrite <- (firstn_skipn 10 (filter _ _)). apply in_or_app. now left. }
    apply filter_In in H. tauto.
Qed.

(** The same, for a whole iteration of the background loop. *)
Lemma simulate_invariant (P : World -> Prop) (draws : nat -> Draw) :
  (forall w, P w -> NoDup (map o_id (orders w))) ->
  (forall w n, P w -> P (set_open_count n w)) ->
  (forall i order w,
     P w -> In order (orders w) -> P (process_order (draws i) order w)) ->
  forall w, P w -> P (simulate_order_execution draws w).
Proof.
  intros Hnd Hcount Hstep w HP. unfold simulate_order_execution.
  apply Hcount.
  destruct (snapshot_ok w (Hnd w HP)) as (A & B).
  now apply process_orders_invariant.
Qed.

Lemma process_order_well_formed draw order w :
  well_formed w -> In order (orders w) ->
  well_formed (process_order draw order w).
Proof.
  intros H Hin.
  destruct (process_order_cases draw order w) as [-> | (_ & ->)]; trivial.
  now apply apply_fill_well_formed.
Qed.

(** Every operation keeps the store well formed. *)
Lemma step_well_formed op w : well_formed w -> well_formed (step op w).
Proof.
  intros H. destruct op; simpl.
  - now apply send_order_well_formed.
  - now apply cancel_order_well_formed.
  - now apply cancel_all_orders_well_formed.
  - apply (simulate_invariant well_formed draws);
      [ intros w' Hw'; apply Hw'
      | intros w' n Hw'; exact Hw'
      | intros i o w' Hw' Ho; now apply process_order_well_formed
      | exact H ].
  - now apply kill_switch_well_formed.
  - now apply check_mandate_breaches_well_formed.
  - exact H.
  - exact H.
  - exact H.
Qed.

Lemma empty_world_well_formed : well_formed empty_world.
Proof. repeat split; constructor. Qed.

(** ** Filled quantity and status of an order *)









Lemma find_id_In (l : list Order) (n : nat) (o : Order) :
  find (fun o => Nat.eqb (o_id o) n) l = Some o -> In o l /\ o_id o = n.
Proof.
  intros H. apply find_some in H. destruct H as [H1 H2].
  apply Nat.eqb_eq in H2. auto.
Qed.




(** The kill switch, however far it gets, either leaves the orders alone
    or cancels the PENDING and OPEN ones. *)
Lemma kill_switch_orders fault request user w :
  let w' := fst (kill_switch_endpoint fault request user w) in
  (orders w' = orders w \/ orders w' = orders (cancel_open_orders w))
  /\ fills w' = fills w.
Proof.
  run_handler; auto.
Qed.








(** The scenario of the specification: an order for 100 is filled by 60
    at 50, then by the remaining 40 at 51. *)
Definition fill_run_1 : list Op :=
  [SetPrice "AAPL" 50; SendOrder buy_100_AAPL trader;
   Simulate (fun _ => mkDraw 0 (3 # 5))].

Definition fill_run_2 : list Op :=
  (fill_run_1
     ++ [SetPrice "AAPL" 51; Simulate (fun _ => mkDraw 0 1)])%list.


Example fill_scenario :
  map (fun o => (o_status o, Qeq_bool (o_filled_quantity o) 60))
    (orders (run fill_run_1 empty_world))
  = [(OrderStatus.PARTIAL, true)]
  /\ map (fun p => Qeq_bool (p_quantity p) 60)
       (positions (run fill_run_1 empty_world))
     = [true]
  /\ map (fun o => (o_status o, Qeq_bool (o_filled_quantity o) 100))
       (orders (run fill_run_2 empty_world))
     = [(OrderStatus.FILLED, true)]
  /\ map (fun p => Qeq_bool (p_quantity p) 100)
       (positions (run fill_run_2 empty_world))
     = [true].
Proof. vm_compute. repeat split. Qed.

(** ** Positions and fills *)

(** The (strategy, symbol) pair [s], [sym] owns a row with these columns:
    the WHERE clause of [fetch_position]. *)
Definition owns (symbol : string) (strategy_id : option nat)
    (s : nat) (sym : string) : bool :=
  String.eqb symbol sym && sql_eq strategy_id (Some s).

(** The quantity of the position of [s], [sym]; 0 while it has no row. *)
Definition position_quantity (w : World) (s : nat) (sym : string) : Q :=
  match fetch_position sym (Some s) w with
  | Some p => p_quantity p
  | None => 0
  end.

(** The quantity the row of [s], [sym] holds, if there is a row. *)
Definition held (w : World) (s : nat) (sym : string) : option Q :=
  option_map p_quantity (fetch_position sym (Some s) w).

(** The signed quantity of a fill, in the words of the specification:
    +quantity for BUY, -quantity for SELL. *)
Definition signed_quantity (side : OrderSide.t) (q : Q) : Q :=
  match side with
  | OrderSide.BUY => q
  | OrderSide.SELL => - q
  end.

(** Booking the signed quantity [c] on what a position holds: [c] itself
    when there is no row yet, else the float sum of the quantity held and
    [c]. *)
Definition book (h : option Q) (c : Q) : option Q :=
  match h with
  | Some x => Some (float_add (float x) c)
  | None => Some c
  end.

(** A row of [fills], joined with its order and booked if the order is one
    of [s], [sym]. *)
Definition book_fill (os : list Order) (s : nat) (sym : string)
    (h : option Q) (f : Fill) : option Q :=
  match find (fun o => Nat.eqb (o_id o) (f_order_id f)) os with
  | Some o =>
      if owns (o_symbol o) (o_strategy_id o) s sym
      then book h (signed_quantity (o_side o) (f_quantity f))
      else h
  | None => h
  end.

(** The signed quantities of the recorded fills of [s], [sym], booked one
    after another in the order of [fills]. *)
Definition booked (w : World) (s : nat) (sym : string) : option Q :=
  fold_left (book_fill (orders w) s sym) (fills w) None.

Definition consistent (w : World) : Prop :=
  forall s sym, held w s sym = booked w s sym.

Definition not_kill_switch (op : Op) : Prop :=
  match op with
  | KillSwitch _ _ _ => False
  | _ => True
  end.

(** An event that leaves the book of positions in step with the fills:
    any operation but the kill switch, which zeroes the positions, and an
    iteration of the fill loop none of whose calls fails. *)
Definition undisturbed (ev : Event) : Prop :=
  match ev with
  | Does op => not_kill_switch op
  | FillLoop fault _ => forall i k, fault i k = false
  end.

(** The weighted-average entry price the specification describes: the
    fills of a position averaged by quantity. *)
Definition weighted_average (fs : list Fill) : Q :=
  fold_right (fun f acc => f_quantity f * f_price f + acc) 0 fs
  / fold_right (fun f acc => f_quantity f + acc) 0 fs.

(** C9, as stated, fails: a fill on an existing position updates its
    quantity and current price only.  After buying 60 at 50 and 40 at 51
    the position holds 100 at an entry price of 50, the price of the first
    fill, where the weighted average is 50.4. *)
Lemma C9_counterexample :
  exists p,
    positions (run fill_run_2 empty_world) = [p]
    /\ p_quantity p == 100
    /\ p_average_entry_price p == 50
    /\ weighted_average (fills (run fill_run_2 empty_world)) == 504 # 10
    /\ ~ p_average_entry_price p
         == weighted_average (fills (run fill_run_2 empty_world)).
Proof.
  eexists. split; [vm_compute; reflexivity|]. cbn [p_quantity p_average_entry_price].
  repeat split; try (vm_compute; reflexivity).
  vm_compute. discriminate.
Qed.

Lemma find_map_preserved {A} (f : A -> bool) (g : A -> A) (l : list A) :
  (forall a, f (g a) = f a) -> find f (map g l) = option_map g (find f l).
Proof.
  intros H. induction l as [|a l IH]; simpl; [reflexivity|].
  rewrite H. destruct (f a); [reflexivity | exact IH].
Qed.

Lemma find_snoc {A} (f : A -> bool) (l : list A) (x : A) :
  find f (l ++ [x])
  = match find f l with
    | Some a => Some a
    | None => if f x then Some x else None
    end.
Proof.
  induction l as [|a l IH]; simpl; [reflexivity|].
  destruct (f a); [reflexivity | exact IH].
Qed.

Lemma fold_left_ext_in {A B} (f g : A -> B -> A) (l : list B) : forall a,
  (forall x b, In b l -> f x b = g x b) -> fold_left f l a = fold_left g l a.
Proof.
  induction l as [|b l IH]; intros a H; simpl; [reflexivity|].
  rewrite (H a b) by now left. apply IH. intros x c Hc. apply H. now right.
Qed.

(** An update that keeps id, strategy, symbol and side of every order. *)
Definition keeps_identity (g : Order -> Order) : Prop :=
  forall o, o_id (g o) = o_id o /\ o_strategy_id (g o) = o_strategy_id o
            /\ o_symbol (g o) = o_symbol o /\ o_side (g o) = o_side o.

Lemma book_fill_map g os s sym h f :
  keeps_identity g -> book_fill (map g os) s sym h f = book_fill os s sym h f.
Proof.
  intros H. unfold book_fill.
  rewrite find_map_preserved by (intros a; now destruct (H a) as (-> & _)).
  destruct (find _ os) as [o|]; simpl; [|reflexivity].
  destruct (H o) as (_ & -> & -> & ->). reflexivity.
Qed.

Lemma book_fill_new_order os row s sym h f :
  (f_order_id f < o_id row)%nat ->
  book_fill (os ++ [row]) s sym h f = book_fill os s sym h f.
Proof.
  intros Hlt. unfold book_fill. rewrite find_snoc.
  destruct (find _ os); [reflexivity|].
  assert (E : Nat.eqb (o_id row) (f_order_id f) = false)
    by (apply Nat.eqb_neq; lia).
  now rewrite E.
Qed.

Lemma consistent_same w w' :
  orders w' = orders w -> fills w' = fills w -> positions w' = positions w ->
  consistent w -> consistent w'.
Proof.
  intros E1 E2 E3 H s sym.
  unfold consistent, held, booked, fetch_position in *.
  rewrite E1, E2, E3. apply H.
Qed.

Lemma consistent_orders_map g w w' :
  keeps_identity g ->
  orders w' = map g (orders w) -> fills w' = fills w ->
  positions w' = positions w ->
  consistent w -> consistent w'.
Proof.
  intros Hg E1 E2 E3 H s sym.
  unfold consistent, held, booked, fetch_position in *.
  rewrite E1, E2, E3.
  rewrite (fold_left_ext_in _ (book_fill (orders w) s sym))
    by (intros x f _; now apply book_fill_map).
  apply H.
Qed.

Lemma keeps_identity_cancel (sel : Order -> bool) (t : nat) :
  keeps_identity
    (fun o => if sel o then set_order_status OrderStatus.CANCELLED t o else o).
Proof. intros o. destruct (sel o); repeat split. Qed.

Lemma keeps_identity_filled_row order q p t :
  keeps_identity (filled_row order q p t).
Proof.
  intros o. unfold filled_row.
  destruct (Nat.eqb (o_id o) (o_id order)); repeat split.
Qed.

Lemma sql_eq_true a b : sql_eq a b = true <-> exists n, a = Some n /\ b = Some n.
Proof.
  destruct a as [x|], b as [y|]; simpl; split;
    try discriminate; try (intros (n & H1 & H2); discriminate).
  - intros H. apply Nat.eqb_eq in H. subst. eauto.
  - intros (n & H1 & H2). apply Nat.eqb_eq. congruence.
Qed.

Lemma owns_true symbol strategy_id s sym :
  owns symbol strategy_id s sym = true
  <-> symbol = sym /\ strategy_id = Some s.
Proof.
  unfold owns. rewrite andb_true_iff, String.eqb_eq, sql_eq_true. split.
  - intros (H & n & H1 & H2). split; congruence.
  - intros (H1 & H2). split; eauto.
Qed.

(** The sign of the change of a position is the one the specification
    gives. *)
Lemma qty_change_signed order q :
  qty_change_of order q = signed_quantity (o_side order) q.
Proof. reflexivity. Qed.

(** A fill books its signed quantity on the position of the order's own
    (strategy, symbol) pair and moves no other position. *)
Lemma update_position_held order q p w s sym :
  NoDup (map p_id (positions w)) ->
  held (update_position order q p w) s sym
  = if owns (o_symbol order) (o_strategy_id order) s sym
    then book (held w s sym) (signed_quantity (o_side order) q)
    else held w s sym.
Proof.
  intros Hnd. rewrite <- qty_change_signed.
  unfold held, update_position, write_position, book.
  destruct (fetch_position (o_symbol order) (o_strategy_id order) w)
    as [pos|] eqn:Ef; unfold fetch_position in *; cbn [positions set_positions
                                                       set_next_id].
  - rewrite find_map_preserved
      by (intros a; destruct (Nat.eqb (p_id a) (p_id pos)); reflexivity).
    destruct (owns (o_symbol order) (o_strategy_id order) s sym) eqn:Eo.
    + apply owns_true in Eo. destruct Eo as [E1 E2].
      rewrite E1, E2 in Ef. rewrite Ef. cbn.
      rewrite Nat.eqb_refl. reflexivity.
    + destruct (find (fun a => String.eqb (p_symbol a) sym && _)
                  (positions w)) as [r|] eqn:Er; cbn; [|reflexivity].
      destruct (Nat.eqb (p_id r) (p_id pos)) eqn:Eid; cbn; [|reflexivity].
      exfalso. apply Nat.eqb_eq in Eid.
      apply find_some in Er. apply find_some in Ef.
      destruct Er as [Hr Pr], Ef as [Hpos Ppos].
      assert (r = pos) by (apply (NoDup_ids_eq p_id (positions w)); trivial).
      subst r.
      apply andb_true_iff in Pr. destruct Pr as [P1 P2].
      apply andb_true_iff in Ppos. destruct Ppos as [P3 P4].
      apply String.eqb_eq in P1, P3.
      apply sql_eq_true in P2. destruct P2 as (n & P2 & P2').
      apply sql_eq_true in P4. destruct P4 as (n' & P4 & P4').
      assert (Eo' : owns (o_symbol order) (o_strategy_id order) s sym = true).
      { apply owns_true. split; congruence. }
      congruence.
  - rewrite find_snoc. cbn [p_symbol p_strategy_id].
    fold (owns (o_symbol order) (o_strategy_id order) s sym).
    destruct (owns (o_symbol order) (o_strategy_id order) s sym) eqn:Eo.
    + apply owns_true in Eo. destruct Eo as [E1 E2].
      rewrite E1, E2 in Ef. rewrite Ef. reflexivity.
    + destruct (find (fun a => String.eqb (p_symbol a) sym && _)
                  (positions w)); reflexivity.
Qed.

Lemma position_quantity_held w s sym :
  position_quantity w s sym
  = match held w s sym with Some q => q | None => 0 end.
Proof.
  unfold position_quantity, held.
  now destruct (fetch_position sym (Some s) w).
Qed.

Lemma book_fill_of_order os order q p s sym h :
  NoDup (map o_id os) -> In order os ->
  book_fill os s sym h (mkFill (o_id order) q p)
  = if owns (o_symbol order) (o_strategy_id order) s sym
    then book h (signed_quantity (o_side order) q)
    else h.
Proof.
  intros Hnd Hin. unfold book_fill. cbn.
  destruct (find _ os) as [o|] eqn:Ef.
  - apply find_id_In in Ef. destruct Ef as [Ho Hid].
    now rewrite (NoDup_ids_eq o_id os o order Hnd Ho Hin Hid).
  - apply (find_none _ _ Ef) in Hin. rewrite Nat.eqb_refl in Hin.
    discriminate.
Qed.

Lemma apply_fill_consistent order q p w :
  well_formed w -> consistent w -> In order (orders w) ->
  consistent (apply_fill order q p w).
Proof.
  intros Hwf H Hin s sym.
  destruct (apply_fill_effect order q p w) as (Eo & Efl & _).
  unfold booked. rewrite Eo, Efl.
  rewrite (fold_left_ext_in _ (book_fill (orders w) s sym))
    by (intros x f _; apply book_fill_map, keeps_identity_filled_row).
  rewrite fold_left_app. cbn [fold_left].
  rewrite book_fill_of_order by (trivial; apply Hwf).
  fold (booked w s sym). rewrite <- (H s sym).
  unfold apply_fill. cbv zeta. rewrite update_position_held by apply Hwf.
  reflexivity.
Qed.

Lemma send_order_consistent order user w :
  well_formed w -> consistent w -> consistent (fst (send_order order user w)).
Proof.
  intros Hwf H. unfold send_order, bind, get, http, raise.
  destruct (String.eqb (role user) "VIEWER"); [exact H|]. cbn.
  destruct (kill_switch_active w); [exact H|]. cbn.
  destruct (get_price (oc_symbol order) w); [|exact H]. cbn.
  intros s sym. unfold booked. cbn [orders fills set_audit_events
    set_log logger set_next_id set_orders].
  rewrite (fold_left_ext_in _ (book_fill (orders w) s sym)).
  - apply (H s sym).
  - intros x f Hf. apply book_fill_new_order. cbn [o_id].
    destruct Hwf as (_ & _ & _ & _ & Hfills).
    rewrite Forall_forall in Hfills. apply Hfills.
    apply in_map_iff. eauto.
Qed.

Lemma cancel_order_consistent order_id user w :
  consistent w -> consistent (fst (cancel_order order_id user w)).
Proof.
  intros H. run_handler; try exact H.
  eapply (consistent_orders_map _ w); [| reflexivity .. | exact H].
  apply (keeps_identity_cancel (fun o => Nat.eqb (o_id o) order_id)).
Qed.

Lemma cancel_all_orders_consistent user w :
  consistent w -> consistent (fst (cancel_all_orders user w)).
Proof.
  intros H. run_handler; try exact H.
  eapply (consistent_orders_map _ w); [| reflexivity .. | exact H].
  apply (keeps_identity_cancel is_open).
Qed.

Lemma process_order_consistent draw order w :
  well_formed w /\ consistent w -> In order (orders w) ->
  well_formed (process_order draw order w)
  /\ consistent (process_order draw order w).
Proof.
  intros [Hwf H] Hin. split; [now apply process_order_well_formed|].
  destruct (process_order_cases draw order w) as [-> | (_ & ->)]; trivial.
  now apply apply_fill_consistent.
Qed.

Lemma step_consistent op w :
  not_kill_switch op -> well_formed w -> consistent w ->
  consistent (step op w).
Proof.
  intros Hop Hwf H. destruct op; simpl; try contradiction.
  - now apply send_order_consistent.
  - now apply cancel_order_consistent.
  - now apply cancel_all_orders_consistent.
  - apply (simulate_invariant (fun w => well_formed w /\ consistent w) draws);
      [ intros w' Hw'; apply Hw'
      | intros w' n Hw'; exact Hw'
      | intros i o w' Hw' Ho; now apply process_order_consistent
      | split; trivial ].
  - unfold check_mandate_breaches.
    destruct (fold_check_next_id (filter m_is_active (risk_mandates w)) w)
      as (A & B & C & _).
    now apply (consistent_same w).
  - exact H.
  - exact H.
  - exact H.
Qed.

(** *** When no call fails, the loop is the one of [Simulate] *)

Lemma fill_statements_no_fault fault order q p w :
  (forall k, fault k = false) ->
  fill_statements fault order q p w = (apply_fill order q p w, Return tt).
Proof.
  intros H. unfold fill_statements, call, bind, get, modify.
  rewrite !H. reflexivity.
Qed.

Lemma process_order_calls_no_fault fault draw order w :
  (forall k, fault k = false) ->
  process_order_calls fault draw order w
  = (process_order draw order w, Return tt).
Proof.
  intros H. unfold process_order_calls, process_order.
  destruct (Qlt_bool (d_chance draw) (3 # 10)); [|reflexivity].
  cbv zeta. destruct (Qlt_bool 0 _); [|reflexivity].
  unfold bind, call, get. rewrite H.
  now apply fill_statements_no_fault.
Qed.

Lemma process_orders_calls_no_fault fault draws snapshot : forall i w,
  (forall j k, fault j k = false) ->
  process_orders_calls fault draws i snapshot w
  = (process_orders draws i snapshot w, Return tt).
Proof.
  induction snapshot as [|order rest IH]; intros i w H; [reflexivity|].
  cbn [process_orders_calls process_orders]. unfold bind.
  rewrite process_order_calls_no_fault by apply H.
  now apply IH.
Qed.

Lemma simulate_order_execution_calls_no_fault fault draws w :
  (forall i k, fault i k = false) ->
  simulate_order_execution_calls fault draws w
  = (simulate_order_execution draws w, Return tt).
Proof.
  intros H.
  unfold simulate_order_execution_calls, simulate_order_execution,
    try_except, bind, call, get, modify.
  rewrite !H. rewrite process_orders_calls_no_fault by exact H.
  reflexivity.
Qed.

Lemma occur_undisturbed ev w :
  undisturbed ev -> exists op, not_kill_switch op /\ occur ev w = step op w.
Proof.
  destruct ev as [op | fault draws]; cbn [undisturbed occur]; intros H.
  - eauto.
  - exists (Simulate draws). split; [exact I|].
    now rewrite simulate_order_execution_calls_no_fault.
Qed.

(** The row of the order's own position after a fill: created with the
    signed quantity and the fill price, or updated to the float sum of the
    quantity read and the signed quantity, with the fill price as current
    price and the entry price it had. *)
Definition position_after (order : Order) (q p : Q) (s : nat) (w : World)
  : Position :=
  match fetch_position (o_symbol order) (Some s) w with
  | Some pos =>
      mkPosition (p_id pos) (p_strategy_id pos) (p_symbol pos)
        (float_add (float (p_quantity pos)) (signed_quantity (o_side order) q))
        (p_average_entry_price pos) p (now w)
  | None =>
      mkPosition (next_id w) (Some s) (o_symbol order)
        (signed_quantity (o_side order) q) p p (now w)
  end.

Lemma update_position_row order q p w s :
  o_strategy_id order = Some s ->
  fetch_position (o_symbol order) (Some s) (update_position order q p w)
  = Some (position_after order q p s w).
Proof.
  intros Es. unfold position_after. rewrite <- qty_change_signed.
  unfold update_position, write_position. rewrite Es.
  destruct (fetch_position (o_symbol order) (Some s) w) as [pos|] eqn:Ef;
    unfold fetch_position in *;
    cbn [positions set_positions set_next_id].
  - rewrite find_map_preserved
      by (intros a; destruct (Nat.eqb (p_id a) (p_id pos)); reflexivity).
    rewrite Ef. cbn. now rewrite Nat.eqb_refl.
  - rewrite find_snoc, Ef. cbn. now rewrite String.eqb_refl, Nat.eqb_refl.
Qed.

(** C9, amended.  A fill all of whose statements succeed, on an order
    that has a strategy, leaves the position of the order's (strategy,
    symbol) pair as follows: the first fill creates it with the signed
    fill quantity, +quantity for BUY and -quantity for SELL, and the fill
    price as entry and current price; a later fill sets its quantity to
    the float sum of the quantity read and the signed fill quantity and
    its current price to the fill price, and keeps the entry price.  So as
    long as the kill switch is not thrown and no call of the fill loop
    fails, the position of every pair holds the signed quantities of
    the fills recorded for the pair's orders, added one after another in
    float arithmetic, or has no row while there is no such fill. *)
Theorem C9_position_tracks_fills (evs : list Event) (w : World) :
  well_formed w -> consistent w -> Forall undisturbed evs ->
  (forall s sym, held (history evs w) s sym = booked (history evs w) s sym)
  /\ (forall fault order q p s,
        o_strategy_id order = Some s ->
        (forall k, fault k = false) ->
        fetch_position (o_symbol order) (Some s)
          (fst (fill_statements fault order q p (history evs w)))
        = Some (position_after order q p s (history evs w))).
Proof.
  intros Hwf H Hevs. split.
  - assert (Hrun : well_formed (history evs w) /\ consistent (history evs w)).
    { revert w Hwf H. induction Hevs as [|ev evs Hev Hevs IH]; intros w Hwf H.
      - split; assumption.
      - cbn [history fold_left].
        destruct (occur_undisturbed ev w Hev) as (op & Hop & ->).
        apply IH; [now apply step_well_formed | now apply step_consistent]. }
    apply Hrun.
  - intros fault order q p s Es Hf.
    rewrite fill_statements_no_fault by exact Hf. cbn [fst].
    unfold apply_fill. cbv zeta.
    rewrite update_position_row by exact Es.
    reflexivity.
Qed.

Definition sell_40_AAPL : OrderCreate :=
  mkOrderCreate "AAPL" OrderSide.SELL OrderType.LIMIT 40 (Some 50) None
    (Some 3%nat).

(** A buy order for 100 filled by 60, then by 20 while a sell order for 40
    of the same strategy is filled by 20. *)
Definition fill_history : list Event :=
  [Does (SetPrice "AAPL" 50); Does (SendOrder buy_100_AAPL trader);
   FillLoop (fun _ _ => false) (fun _ => mkDraw 0 (3 # 5));
   Does (SendOrder sell_40_AAPL trader);
   FillLoop (fun _ _ => false) (fun _ => mkDraw 0 (1 # 2))].

Lemma C9_position_tracks_fills_witness :
  held (history fill_history empty_world) 3 "AAPL"
  = booked (history fill_history empty_world) 3 "AAPL".
Proof.
  refine (proj1 (C9_position_tracks_fills fill_history empty_world
                   empty_world_well_formed _ _) 3%nat "AAPL").
  - intros s sym. reflexivity.
  - unfold fill_history.
    repeat (apply Forall_cons; [first [exact I | intros i k; reflexivity]|]).
    apply Forall_nil.
Defined.

(** In that history the position is bought up to 60, then to 80, then
    sold down to 60. *)
Example fill_history_position :
  map (fun f => Qred (f_quantity f))
    (fills (history fill_history empty_world)) = [60; 20; 20]
  /\ option_map Qred (held (history fill_history empty_world) 3 "AAPL")
     = Some 60
  /\ map (fun p => (Qred (p_quantity p), Qred (p_average_entry_price p)))
       (positions (history fill_history empty_world)) = [(60, 50)].
Proof. vm_compute. repeat split. Qed.

(** When the write to [positions] fails, the fill and the new filled
    quantity of the order are committed already: the iteration ends in
    the [except] clause with a fill on record and no position for it. *)
Example fill_loop_failure :
  let w :=
    history
      [Does (SetPrice "AAPL" 50); Does (SendOrder buy_100_AAPL trader);
       FillLoop (fun i k => Nat.eqb i 1 && Nat.eqb k 5)
         (fun _ => mkDraw 0 (3 # 5))]
      empty_world in
  map (fun f => Qred (f_quantity f)) (fills w) = [60]
  /\ map (fun o => (Qred (o_filled_quantity o), o_status o)) (orders w)
     = [(60, OrderStatus.PARTIAL)]
  /\ positions w = []
  /\ held w 3 "AAPL" = None
  /\ option_map Qred (booked w 3 "AAPL") = Some 60
  /\ map snd (log w)
     = ["Order submitted: 0"; "Execution simulation error: call 5 failed"].
Proof. vm_compute. repeat split. Qed.

(** * Further properties of the handlers *)

(** ** Roles and permissions *)

(** X1.  The three roles form a hierarchy: whatever a VIEWER may do a QUANT
    may do, whatever a QUANT may do an ADMIN may do, and a role that is
    none of the three may do nothing. *)
Theorem role_hierarchy (role permission : string) :
  implb (has_permission "VIEWER" permission)
        (has_permission "QUANT" permission) = true
  /\ implb (has_permission "QUANT" permission)
           (has_permission "ADMIN" permission) = true
  /\ (has_permission role permission = true ->
      role = "ADMIN" \/ role = "QUANT" \/ role = "VIEWER").
Proof.
  assert (Hsub : forall l1 l2 : list string,
             incl l1 l2 ->
             implb (existsb (String.eqb permission) l1)
                   (existsb (String.eqb permission) l2) = true).
  { intros l1 l2 Hincl.
    destruct (existsb (String.eqb permission) l1) eqn:E; [|reflexivity].
    apply existsb_exists in E. destruct E as (x & Hx & Ex).
    simpl. apply existsb_exists. exists x. auto. }
  split; [|split].
  - apply Hsub. intros x [<- | []]. simpl. tauto.
  - apply Hsub. intros x Hx. simpl in *. tauto.
  - unfold has_permission, ROLE_PERMISSIONS. cbn [find fst snd].
    destruct (String.eqb "ADMIN" role) eqn:E1;
      [apply String.eqb_eq in E1; auto|].
    destruct (String.eqb "QUANT" role) eqn:E2;
      [apply String.eqb_eq in E2; auto|].
    destruct (String.eqb "VIEWER" role) eqn:E3;
      [apply String.eqb_eq in E3; auto|].
    cbn [existsb]. discriminate.
Qed.

Lemma role_hierarchy_witness :
  "QUANT" = "ADMIN" \/ "QUANT" = "QUANT" \/ "QUANT" = "VIEWER".
Proof.
  apply (proj2 (proj2 (role_hierarchy "QUANT" "view_audit"))). reflexivity.
Defined.

Lemma kill_switch_permission role :
  has_permission role "kill_switch" = true <-> role = "ADMIN".
Proof.
  split.
  - intros H. unfold has_permission, ROLE_PERMISSIONS in H.
    cbn [find fst snd] in H.
    destruct (String.eqb "ADMIN" role) eqn:E1;
      [now apply String.eqb_eq in E1|].
    destruct (String.eqb "QUANT" role); [discriminate|].
    destruct (String.eqb "VIEWER" role); discriminate.
  - intros ->. reflexivity.
Qed.

(** X2.  Only an ADMIN gets past the dependency of the kill switch: for any
    other role the endpoint answers 403, confirmed or not, and leaves the
    store as it was. *)
Theorem kill_switch_needs_admin
    (fault : nat -> bool) (request : KillSwitchRequest)
    (user : UserContext) (w : World) :
  role user <> "ADMIN" ->
  kill_switch_endpoint fault request user w
  = (w, Raise (Http (mkHTTPException 403
                       "Access denied. Missing permission: kill_switch"))).
Proof.
  intros H. unfold kill_switch_endpoint, require_permission, bind, http, raise.
  destruct (has_permission (role user) "kill_switch") eqn:E.
  - apply kill_switch_permission in E. contradiction.
  - reflexivity.
Qed.

Lemma kill_switch_needs_admin_witness :
  kill_switch_endpoint no_fault confirmed_halt trader trading_world
  = (trading_world,
     Raise (Http (mkHTTPException 403
                    "Access denied. Missing permission: kill_switch"))).
Proof.
  apply (kill_switch_needs_admin no_fault confirmed_halt trader trading_world).
  discriminate.
Defined.

(** ** The kill switch when nothing fails *)

Lemma kill_switch_success_effect request user w :
  ks_confirm request = true ->
  let r := execute_kill_switch no_fault request user w in
  snd r
  = Return (mkKillSwitchResponse true
              (List.length (filter pending_or_open (orders w)))
              (List.length (filter nonzero (positions w)))
              ("Kill switch executed. Reason: " ++ ks_reason request)
              (now w))
  /\ orders (fst r) = orders (cancel_open_orders w)
  /\ positions (fst r) = positions (close_all_positions w)
  /\ strategies (fst r) = strategies (halt_active_strategies w)
  /\ system_state (fst r)
     = system_state
         (update_system_state "system_status" (JStr "EMERGENCY")
            (update_system_state "kill_switch_active" (JBool true) w))
  /\ fills (fst r) = fills w
  /\ List.length (audit_events (fst r)) = S (List.length (audit_events w))
  /\ List.length (ws_broadcasts (fst r)) = S (List.length (ws_broadcasts w))
  /\ List.length (redis_published (fst r))
     = S (List.length (redis_published w))
  /\ risk_alerts (fst r) = risk_alerts w.
Proof.
  intros Hc. unfold execute_kill_switch. rewrite Hc.
  unfold try_except, call, bind, get, modify, ret, http, raise, log_audit,
    no_fault.
  cbn. rewrite !length_app. cbn. repeat split; lia.
Qed.

(** X3.  A confirmed kill switch on which no call fails returns the numbers of
    PENDING/OPEN orders and of non-zero positions it found, and leaves no
    order PENDING or OPEN, every position at quantity 0 and no strategy
    ACTIVE.  It deletes nothing and touches no other order: orders that
    were not PENDING or OPEN are still there as they were.  It writes one
    audit record, sends one broadcast and publishes one Redis message, and
    it stores no risk alert. *)
Theorem kill_switch_success
    (request : KillSwitchRequest) (user : UserContext) (w : World) :
  ks_confirm request = true ->
  let r := execute_kill_switch no_fault request user w in
  (exists resp,
     snd r = Return resp /\ kr_success resp = true
     /\ kr_orders_cancelled resp
        = List.length (filter pending_or_open (orders w))
     /\ kr_positions_closed resp = List.length (filter nonzero (positions w)))
  /\ Forall (fun o => pending_or_open o = false) (orders (fst r))
  /\ Forall (fun p => p_quantity p = 0) (positions (fst r))
  /\ Forall (fun s => is_active s = false) (strategies (fst r))
  /\ map o_id (orders (fst r)) = map o_id (orders w)
  /\ map p_id (positions (fst r)) = map p_id (positions w)
  /\ (forall o, In o (orders w) -> pending_or_open o = false ->
                In o (orders (fst r)))
  /\ List.length (audit_events (fst r)) = S (List.length (audit_events w))
  /\ List.length (ws_broadcasts (fst r)) = S (List.length (ws_broadcasts w))
  /\ List.length (redis_published (fst r))
     = S (List.length (redis_published w))
  /\ risk_alerts (fst r) = risk_alerts w.
Proof.
  intros Hc.
  destruct (kill_switch_success_effect request user w Hc)
    as (R & Ho & Hp & Hs & _ & _ & Ha & Hb & Hr & Hal).
  cbv zeta. rewrite R, Ho, Hp, Hs.
  split; [eexists; repeat split|].
  split; [apply Forall_forall; apply cancel_open_orders_spec|].
  split.
  { apply Forall_forall. intros p Hin. cbn in Hin.
    apply in_map_iff in Hin. destruct Hin as (p0 & <- & _). reflexivity. }
  split.
  { apply Forall_forall. intros s Hin. cbn in Hin.
    apply in_map_iff in Hin. destruct Hin as (s0 & <- & _).
    destruct (is_active s0) eqn:E; [reflexivity | exact E]. }
  split.
  { cbn. apply map_id_preserved. intros o.
    destruct (pending_or_open o); reflexivity. }
  split; [cbn; now apply map_id_preserved|].
  split; [|auto].
  intros o Hin Hclosed. cbn. apply in_map_iff. exists o.
  rewrite Hclosed. auto.
Qed.

Lemma kill_switch_success_witness :
  Forall (fun p => p_quantity p = 0)
    (positions (fst (execute_kill_switch no_fault confirmed_halt admin
                       trading_world))).
Proof.
  apply (kill_switch_success confirmed_halt admin trading_world).
  reflexivity.
Defined.

(** The [system_state] table has a row for the halt flag. *)
Definition has_flag_row (w : World) : bool :=
  existsb (fun r => String.eqb (ss_key r) "kill_switch_active")
    (system_state w).

Lemma flag_after_updates v w :
  kill_switch_active
    (update_system_state "system_status" v
       (update_system_state "kill_switch_active" (JBool true) w))
  = has_flag_row w.
Proof.
  unfold kill_switch_active, fetch_system_state, has_flag_row,
    update_system_state.
  cbn [system_state set_system_state now].
  induction (system_state w) as [|r l IH]; [reflexivity|].
  cbn [map find existsb].
  destruct (String.eqb (ss_key r) "kill_switch_active") eqn:E.
  - cbn [ss_key]. apply String.eqb_eq in E. rewrite E. reflexivity.
  - destruct (String.eqb (ss_key r) "system_status") eqn:E2;
      cbn [ss_key]; rewrite E; cbn [orb]; exact IH.
Qed.

Lemma kill_switch_active_ext w w' :
  system_state w' = system_state w ->
  kill_switch_active w' = kill_switch_active w.
Proof.
  intros E. unfold kill_switch_active, fetch_system_state. now rewrite E.
Qed.

(** X4.  The kill switch raises the halt flag by updating a row: after a
    confirmed run on which no call fails the flag is set exactly when
    [system_state] had a row for it, and then every later order
    submission is rejected without creating an order.  On a store without
    that row the handler still reports success and trading stays open. *)
Theorem halt_flag_after_kill_switch
    (request : KillSwitchRequest) (user : UserContext) (w : World) :
  ks_confirm request = true ->
  let w' := fst (execute_kill_switch no_fault request user w) in
  kill_switch_active w' = has_flag_row w
  /\ (has_flag_row w = true ->
      forall order caller,
        exists e, send_order order caller w' = (w', Raise e))
  /\ (has_flag_row w = false ->
      forall order caller last_price,
        may_trade caller = true ->
        get_price (oc_symbol order) w = Some last_price ->
        exists resp, snd (send_order order caller w') = Return resp).
Proof.
  intros Hc.
  destruct (kill_switch_success_effect request user w Hc)
    as (_ & _ & _ & _ & Hss & _).
  cbv zeta.
  set (w' := fst (execute_kill_switch no_fault request user w)) in *.
  assert (Hflag : kill_switch_active w' = has_flag_row w).
  { rewrite (kill_switch_active_ext _ _ Hss). apply flag_after_updates. }
  split; [exact Hflag|]. split.
  - intros Hrow order caller. unfold send_order, bind, get, http, raise.
    destruct (String.eqb (role caller) "VIEWER"); [eauto|].
    cbn. rewrite Hflag, Hrow. eauto.
  - intros Hrow order caller last_price Hrole Hprice.
    assert (Hp : get_price (oc_symbol order) w' = Some last_price).
    { unfold w', execute_kill_switch. rewrite Hc. exact Hprice. }
    unfold send_order, bind, get, http, raise, may_trade in *.
    destruct (String.eqb (role caller) "VIEWER"); [discriminate|].
    cbn. rewrite Hflag, Hrow, Hp. cbn. eauto.
Qed.

Lemma halt_flag_after_kill_switch_witness :
  kill_switch_active
    (fst (execute_kill_switch no_fault confirmed_halt admin trading_world))
  = has_flag_row trading_world.
Proof.
  apply (halt_flag_after_kill_switch confirmed_halt admin trading_world).
  reflexivity.
Defined.

Lemma filter_none {A} (f : A -> bool) (l : list A) :
  Forall (fun a => f a = false) l -> filter f l = [].
Proof.
  induction 1 as [|a l Ha _ IH]; simpl; [reflexivity|]. now rewrite Ha.
Qed.

(** X5.  Throwing the kill switch a second time finds nothing left to do: it
    reports 0 orders cancelled and 0 positions closed. *)
Theorem kill_switch_twice
    (request request' : KillSwitchRequest) (user user' : UserContext)
    (w : World) :
  ks_confirm request = true -> ks_confirm request' = true ->
  let w' := fst (execute_kill_switch no_fault request user w) in
  exists resp,
    snd (execute_kill_switch no_fault request' user' w') = Return resp
    /\ kr_orders_cancelled resp = 0%nat
    /\ kr_positions_closed resp = 0%nat.
Proof.
  intros Hc Hc'. cbv zeta.
  destruct (kill_switch_success_effect request user w Hc)
    as (_ & Ho & Hp & _).
  destruct (kill_switch_success_effect request' user'
              (fst (execute_kill_switch no_fault request user w)) Hc')
    as (R & _).
  rewrite R, Ho, Hp. eexists. split; [reflexivity|]. cbn. split.
  - rewrite filter_none; [reflexivity|].
    apply Forall_forall. apply cancel_open_orders_spec.
  - rewrite filter_none; [reflexivity|].
    apply Forall_forall. intros p Hin.
    apply in_map_iff in Hin. destruct Hin as (p0 & <- & _). reflexivity.
Qed.

Lemma kill_switch_twice_witness :
  exists resp,
    snd (execute_kill_switch no_fault confirmed_halt admin
           (fst (execute_kill_switch no_fault confirmed_halt admin
                   trading_world)))
    = Return resp
    /\ kr_orders_cancelled resp = 0%nat
    /\ kr_positions_closed resp = 0%nat.
Proof.
  apply (kill_switch_twice confirmed_halt confirmed_halt admin admin
           trading_world); reflexivity.
Defined.

(** ** Cancelling and submitting orders *)

(** X6.  [cancel_all_orders] by an ADMIN returns the number of orders that were
    open, leaves no order open, keeps every order row in place with its
    filled quantity, leaves the orders that were already closed exactly as
    they were, and writes one audit record; for any other role it answers
    403 and changes nothing.  A second call right after reports 0. *)
Theorem cancel_all_orders_effect (user : UserContext) (w : World) :
  (role user <> "ADMIN" ->
   cancel_all_orders user w
   = (w, Raise (Http (mkHTTPException 403 "Admin access required"))))
  /\ (role user = "ADMIN" ->
      let r := cancel_all_orders user w in
      snd r = Return (mkCancelAllResponse
                        (List.length (filter is_open (orders w))) (now w))
      /\ Forall (fun o => is_open o = false) (orders (fst r))
      /\ map (fun o => (o_id o, o_filled_quantity o)) (orders (fst r))
         = map (fun o => (o_id o, o_filled_quantity o)) (orders w)
      /\ (forall o, In o (orders w) -> is_open o = false ->
                    In o (orders (fst r)))
      /\ List.length (audit_events (fst r)) = S (List.length (audit_events w))
      /\ (exists resp,
            snd (cancel_all_orders user (fst r)) = Return resp
            /\ ca_orders_cancelled resp = 0%nat)).
Proof.
  unfold cancel_all_orders, bind, get, modify, ret, http, raise, log_audit.
  split.
  - intros H. destruct (String.eqb (role user) "ADMIN") eqn:E.
    + apply String.eqb_eq in E. contradiction.
    + reflexivity.
  - intros H. rewrite H. cbn.
    assert (Hclosed :
              Forall (fun o => is_open o = false)
                (map (fun o => if is_open o
                               then set_order_status OrderStatus.CANCELLED
                                      (now w) o
                               else o) (orders w))).
    { apply Forall_forall. intros o Hin. apply in_map_iff in Hin.
      destruct Hin as (o0 & <- & _).
      destruct (is_open o0) eqn:E; [reflexivity | exact E]. }
    split; [reflexivity|]. split; [exact Hclosed|]. split.
    { rewrite map_map. apply map_ext. intros o.
      destruct (is_open o); reflexivity. }
    split.
    { intros o Hin Ho. apply in_map_iff. exists o. rewrite Ho. auto. }
    split; [rewrite length_app; cbn; lia|].
    eexists. split; [reflexivity|]. cbn.
    now rewrite (filter_none _ _ Hclosed).
Qed.

Lemma cancel_all_orders_effect_witness :
  Forall (fun o => is_open o = false)
    (orders (fst (cancel_all_orders admin trading_world))).
Proof.
  apply (proj2 (cancel_all_orders_effect admin trading_world)).
  reflexivity.
Defined.

Definition NotFound : Exn := Http (mkHTTPException 404 "Order not found").

Lemma find_id_absent (l : list Order) (n : nat) :
  find (fun o => Nat.eqb (o_id o) n) l = None <-> ~ In n (map o_id l).
Proof.
  split.
  - intros H Hin. apply in_map_iff in Hin. destruct Hin as (o & E & Ho).
    apply (find_none _ _ H) in Ho. apply Nat.eqb_neq in Ho. contradiction.
  - intros H. destruct (find _ l) as [o|] eqn:E; [|reflexivity].
    apply find_id_In in E. destruct E as [Ho E]. exfalso. apply H.
    apply in_map_iff. eauto.
Qed.

(** X7.  [cancel_order] on an id that is not in the table answers 404 and
    changes nothing.  On an order that is still open, in a table with
    unique ids, it returns the status the order had, turns that order, and
    no other, into CANCELLED with its filled quantity kept, and writes one
    audit record; cancelling the same order again is then refused as
    already CANCELLED. *)
Theorem cancel_order_effect
    (order_id : nat) (user : UserContext) (w : World) :
  may_trade user = true ->
  (~ In order_id (map o_id (orders w)) ->
   cancel_order order_id user w = (w, Raise NotFound))
  /\ (forall order,
        NoDup (map o_id (orders w)) ->
        In order (orders w) -> o_id order = order_id ->
        is_terminal (o_status order) = false ->
        let r := cancel_order order_id user w in
        snd r = Return (mkCancelResponse order_id (o_status order))
        /\ In (set_order_status OrderStatus.CANCELLED (now w) order)
              (orders (fst r))
        /\ (forall o, In o (orders w) -> o_id o <> order_id ->
                      In o (orders (fst r)))
        /\ List.length (orders (fst r)) = List.length (orders w)
        /\ List.length (audit_events (fst r))
           = S (List.length (audit_events w))
        /\ cancel_order order_id user (fst r)
           = (fst r, Raise (InvalidState OrderStatus.CANCELLED))).
Proof.
  intros Hrole. unfold may_trade in Hrole. apply negb_true_iff in Hrole.
  unfold cancel_order, bind, get, modify, ret, http, raise, log_audit,
    NotFound, InvalidState.
  rewrite Hrole. cbn [fst snd]. split.
  - intros H. apply find_id_absent in H. now rewrite H.
  - intros order Hnd Hin Hid Hterm.
    assert (Hfind : find (fun o => Nat.eqb (o_id o) order_id) (orders w)
                    = Some order).
    { destruct (find _ (orders w)) as [o|] eqn:E.
      - apply find_id_In in E. destruct E as [Ho E]. f_equal.
        apply (NoDup_ids_eq o_id (orders w)); trivial. congruence.
      - apply (find_none _ _ E) in Hin. rewrite Hid, Nat.eqb_refl in Hin.
        discriminate. }
    rewrite Hfind, Hterm. cbn.
    set (cancel := fun o => if Nat.eqb (o_id o) order_id
                            then set_order_status OrderStatus.CANCELLED
                                   (now w) o
                            else o).
    assert (Hin' : In (set_order_status OrderStatus.CANCELLED (now w) order)
                     (map cancel (orders w))).
    { apply in_map_iff. exists order. split; trivial.
      unfold cancel. now rewrite Hid, Nat.eqb_refl. }
    split; [reflexivity|]. split; [exact Hin'|]. split.
    { intros o Ho Hne. apply in_map_iff. exists o. split; trivial.
      unfold cancel. apply Nat.eqb_neq in Hne. now rewrite Hne. }
    split; [apply length_map|].
    split; [rewrite length_app; cbn; lia|].
    assert (Hfind' : find (fun o => Nat.eqb (o_id o) order_id)
                       (map cancel (orders w))
                     = Some (set_order_status OrderStatus.CANCELLED (now w)
                               order)).
    { rewrite find_map_preserved
        by (intros a; unfold cancel;
            destruct (Nat.eqb (o_id a) order_id) eqn:E; cbn; now rewrite ?E).
      rewrite Hfind. cbn. unfold cancel. now rewrite Hid, Nat.eqb_refl. }
    rewrite Hfind'. reflexivity.
Qed.

Lemma cancel_order_effect_witness :
  cancel_order 9 trader trading_world = (trading_world, Raise NotFound).
Proof.
  apply (proj1 (cancel_order_effect 9 trader trading_world eq_refl)).
  cbn. intros [H | [H | [H | []]]]; discriminate H.
Defined.

(** X8.  [send_order] by a caller that may trade, with the halt flag unset and
    a reference price for the symbol, appends exactly one order: PENDING,
    nothing filled, under a fresh id, which is the id returned; a missing
    or zero price is replaced by the reference price.  It records no fill,
    touches no position and writes one audit record.  In a well-formed
    store the same caller can cancel the order under the returned id right
    away, and is told it was PENDING. *)
Theorem send_order_effect
    (order : OrderCreate) (user : UserContext) (w : World) (last_price : Q) :
  may_trade user = true ->
  kill_switch_active w = false ->
  get_price (oc_symbol order) w = Some last_price ->
  let r := send_order order user w in
  exists row,
    snd r = Return (mkSendOrderResponse (o_id row) (oc_symbol order)
                      (oc_side order) (oc_quantity order)
                      OrderStatus.PENDING (now w))
    /\ orders (fst r) = (orders w ++ [row])%list
    /\ o_id row = next_id w
    /\ o_status row = OrderStatus.PENDING
    /\ o_filled_quantity row = 0
    /\ o_quantity row = oc_quantity order
    /\ o_strategy_id row = oc_strategy_id order
    /\ o_price row
       = Some (match oc_price order with
               | Some price => if Qeq_bool price 0 then last_price else price
               | None => last_price
               end)
    /\ fills (fst r) = fills w
    /\ positions (fst r) = positions w
    /\ List.length (audit_events (fst r)) = S (List.length (audit_events w))
    /\ (well_formed w ->
        snd (cancel_order (o_id row) user (fst r))
        = Return (mkCancelResponse (o_id row) OrderStatus.PENDING)).
Proof.
  intros Hrole Hhalt Hprice. unfold may_trade in Hrole.
  apply negb_true_iff in Hrole.
  unfold send_order, bind, get, modify, ret, http, raise, log_audit,
    insert_order.
  rewrite Hrole. cbn [fst snd]. rewrite Hhalt, Hprice. cbn.
  exists (mkOrder (next_id w) (oc_strategy_id order) (oc_symbol order)
            (oc_side order) (oc_order_type order) (oc_quantity order)
            (Some (or_else (oc_price order) last_price))
            (oc_stop_price order) 0 None OrderStatus.PENDING (id user)
            (now w)).
  split; [reflexivity|]. split; [reflexivity|].
  cbn. repeat split.
  - unfold or_else, truthy. destruct (oc_price order) as [price|]; trivial.
    now destruct (Qeq_bool price 0).
  - rewrite length_app. cbn. lia.
  - intros (_ & _ & Hlt & _).
    unfold cancel_order, bind, get, modify, ret, http, raise, log_audit.
    rewrite Hrole. cbn [fst snd orders set_orders set_next_id
                        set_audit_events set_log logger].
    rewrite find_snoc.
    assert (Hnone : find (fun o => Nat.eqb (o_id o) (next_id w)) (orders w)
                    = None).
    { apply find_id_absent. intros Hin. rewrite Forall_forall in Hlt.
      apply Hlt in Hin. lia. }
    rewrite Hnone. cbn. rewrite Nat.eqb_refl. cbn. reflexivity.
Qed.

Lemma send_order_effect_witness :
  exists row,
    orders (fst (send_order buy_100_AAPL trader trading_world))
    = (orders trading_world ++ [row])%list
    /\ o_id row = 5%nat /\ o_status row = OrderStatus.PENDING.
Proof.
  destruct (send_order_effect buy_100_AAPL trader trading_world 50
              eq_refl eq_refl eq_refl)
    as (row & _ & H1 & H2 & H3 & _).
  exists row. auto.
Defined.

(** ** The fills on record *)

(** [w'] holds the fills of [w], as they were and in their order, and
    after them fills for positive quantities. *)
Definition fills_extend (w w' : World) : Prop :=
  exists new,
    fills w' = (fills w ++ new)%list
    /\ Forall (fun f => 0 < f_quantity f) new.

Lemma fills_extend_same w w' : fills w' = fills w -> fills_extend w w'.
Proof. intros E. exists []. rewrite E, app_nil_r. auto. Qed.

Lemma fills_extend_trans w1 w2 w3 :
  fills_extend w1 w2 -> fills_extend w2 w3 -> fills_extend w1 w3.
Proof.
  intros (n1 & E1 & H1) (n2 & E2 & H2). exists (n1 ++ n2)%list.
  rewrite E2, E1, app_assoc. split; [reflexivity|].
  apply Forall_app. auto.
Qed.

Lemma write_position_fills order q p existing_pos w :
  fills (write_position order q p existing_pos w) = fills w.
Proof. unfold write_position. now destruct existing_pos. Qed.

(** Whichever call fails, the statements of a fill add the fill or
    nothing. *)
Lemma fill_statements_extend fault order q p w :
  0 < q -> fills_extend w (fst (fill_statements fault order q p w)).
Proof.
  intros Hq.
  assert (Hone : forall w',
            fills w' = (fills w ++ [mkFill (o_id order) q p])%list ->
            fills_extend w w').
  { intros w' E. eexists. split; [exact E|].
    constructor; [exact Hq | constructor]. }
  unfold fill_statements, call, bind, get, modify.
  destruct (fault 2%nat); [now apply fills_extend_same|].
  destruct (fault 3%nat); [now apply Hone|].
  destruct (fault 4%nat); [now apply Hone|].
  destruct (fault 5%nat); [now apply Hone|].
  apply Hone. cbn [fst]. now rewrite write_position_fills.
Qed.

Lemma process_order_calls_extend fault draw order w :
  fills_extend w (fst (process_order_calls fault draw order w)).
Proof.
  unfold process_order_calls.
  destruct (Qlt_bool (d_chance draw) (3 # 10));
    [|now apply fills_extend_same].
  cbv zeta. destruct (Qlt_bool 0 _) eqn:E; [|now apply fills_extend_same].
  unfold bind, call, get.
  destruct (fault 1%nat); [now apply fills_extend_same|].
  apply fill_statements_extend.
  unfold Qlt_bool in E. apply negb_true_iff in E.
  apply Qnot_le_lt. intros H. apply Qle_bool_iff in H. congruence.
Qed.

Lemma process_orders_calls_extend fault draws snapshot : forall i w,
  fills_extend w (fst (process_orders_calls fault draws i snapshot w)).
Proof.
  induction snapshot as [|order rest IH]; intros i w;
    [now apply fills_extend_same|].
  cbn [process_orders_calls]. unfold bind.
  pose proof (process_order_calls_extend (fault (S i)) (draws i) order w)
    as H1.
  destruct (process_order_calls (fault (S i)) (draws i) order w)
    as [w1 [[]|e]]; cbn [fst] in *; [|exact H1].
  eapply fills_extend_trans; [exact H1 | apply IH].
Qed.

Lemma simulate_order_execution_calls_extend fault draws w :
  fills_extend w (fst (simulate_order_execution_calls fault draws w)).
Proof.
  unfold simulate_order_execution_calls, try_except, bind, call, get, modify.
  destruct (fault 0%nat 1%nat); [now apply fills_extend_same|].
  pose proof (process_orders_calls_extend fault draws
                (firstn 10 (filter is_open (orders w))) 0 w) as H1.
  destruct (process_orders_calls fault draws 0
              (firstn 10 (filter is_open (orders w))) w)
    as [w1 [[]|e]]; cbn [fst] in *; [|exact H1].
  destruct (fault 0%nat 2%nat); [exact H1|].
  destruct (fault 0%nat 3%nat); exact H1.
Qed.

Lemma step_fills op w : fills_extend w (step op w).
Proof.
  destruct op; simpl.
  - apply fills_extend_same. unfold send_order, bind, get, http, raise.
    destruct (String.eqb (role user) "VIEWER"); [reflexivity|]. cbn.
    destruct (kill_switch_active w); [reflexivity|]. cbn.
    destruct (get_price (oc_symbol order) w); reflexivity.
  - apply fills_extend_same. run_handler; reflexivity.
  - apply fills_extend_same. run_handler; reflexivity.
  - pose proof (simulate_order_execution_calls_extend (fun _ _ => false)
                  draws w) as H.
    rewrite simulate_order_execution_calls_no_fault in H by reflexivity.
    exact H.
  - apply fills_extend_same. apply kill_switch_orders.
  - apply fills_extend_same. unfold check_mandate_breaches.
    destruct (fold_check_next_id (filter m_is_active (risk_mandates w)) w)
      as (_ & _ & C & _).
    exact C.
  - now apply fills_extend_same.
  - now apply fills_extend_same.
  - now apply fills_extend_same.
Qed.

(** X9.  Fills are only ever added.  Over any history of the system, with
    the kill switch and with calls of the kill switch and of the fill loop
    that fail, the fills that were on record are still there, as they
    were and in their order, and every fill recorded since is for a
    positive quantity. *)
Theorem fills_append_only (evs : list Event) (w : World) :
  exists new,
    fills (history evs w) = (fills w ++ new)%list
    /\ Forall (fun f => 0 < f_quantity f) new.
Proof.
  revert w. induction evs as [|ev evs IH]; intros w.
  - now apply fills_extend_same.
  - apply (fills_extend_trans w (occur ev w)); [|apply IH].
    destruct ev as [op | fault draws]; cbn [occur].
    + apply step_fills.
    + apply simulate_order_execution_calls_extend.
Qed.

(** ** What never happens to an order *)

(** Row [o'] is a later state of row [o]: the same order, with nothing
    taken back from its filled quantity. *)
Definition later_state (o o' : Order) : Prop :=
  o_id o' = o_id o /\ o_strategy_id o' = o_strategy_id o
  /\ o_symbol o' = o_symbol o /\ o_side o' = o_side o
  /\ o_order_type o' = o_order_type o /\ o_quantity o' = o_quantity o
  /\ o_created_by o' = o_created_by o
  /\ o_filled_quantity o <= o_filled_quantity o'.

Definition persists (w w' : World) : Prop :=
  forall o, In o (orders w) ->
            exists o', In o' (orders w') /\ later_state o o'.

Lemma later_state_refl o : later_state o o.
Proof. repeat split. lra. Qed.

Lemma later_state_trans o1 o2 o3 :
  later_state o1 o2 -> later_state o2 o3 -> later_state o1 o3.
Proof.
  unfold later_state. intros H1 H2.
  repeat split; try (intuition congruence). intuition lra.
Qed.

Lemma persists_refl w : persists w w.
Proof. intros o Ho. exists o. split; [exact Ho | apply later_state_refl]. Qed.

Lemma persists_trans w1 w2 w3 :
  persists w1 w2 -> persists w2 w3 -> persists w1 w3.
Proof.
  intros H1 H2 o Ho. destruct (H1 o Ho) as (o' & Ho' & L1).
  destruct (H2 o' Ho') as (o'' & Ho'' & L2).
  exists o''. split; [exact Ho'' | eapply later_state_trans; eauto].
Qed.

Lemma persists_same w w' : orders w' = orders w -> persists w w'.
Proof. intros E o Ho. exists o. rewrite E. split; [exact Ho | apply later_state_refl]. Qed.

Lemma persists_map (g : Order -> Order) w w' :
  (forall o, In o (orders w) -> later_state o (g o)) ->
  orders w' = map g (orders w) -> persists w w'.
Proof.
  intros Hg E o Ho. exists (g o). rewrite E. split; [now apply in_map | auto].
Qed.

Lemma later_state_cancel (sel : Order -> bool) (t : nat) (o : Order) :
  later_state o
    (if sel o then set_order_status OrderStatus.CANCELLED t o else o).
Proof. destruct (sel o); repeat split; cbn; lra. Qed.

Lemma send_order_persists order user w :
  persists w (fst (send_order order user w)).
Proof.
  unfold send_order, bind, get, http, raise.
  destruct (String.eqb (role user) "VIEWER"); [apply persists_refl|]. cbn.
  destruct (kill_switch_active w); [apply persists_refl|]. cbn.
  destruct (get_price (oc_symbol order) w); [|apply persists_refl]. cbn.
  intros o Ho. exists o. cbn.
  split; [apply in_or_app; now left | apply later_state_refl].
Qed.

Lemma cancel_order_persists order_id user w :
  persists w (fst (cancel_order order_id user w)).
Proof.
  run_handler; try apply persists_refl.
  eapply persists_map; [|reflexivity]. intros x _.
  apply (later_state_cancel (fun o => Nat.eqb (o_id o) order_id)).
Qed.

Lemma cancel_all_orders_persists user w :
  persists w (fst (cancel_all_orders user w)).
Proof.
  run_handler; try apply persists_refl.
  eapply persists_map; [|reflexivity]. intros x _.
  apply (later_state_cancel is_open).
Qed.

Lemma kill_switch_persists fault request user w :
  persists w (fst (kill_switch_endpoint fault request user w)).
Proof.
  destruct (kill_switch_orders fault request user w) as [[Eo | Eo] _].
  - now apply persists_same.
  - eapply persists_map; [|exact Eo]. intros x _.
    apply (later_state_cancel pending_or_open).
Qed.

Lemma process_order_persists draw order w :
  NoDup (map o_id (orders w)) -> In order (orders w) ->
  persists w (process_order draw order w).
Proof.
  intros Hnd Hin.
  destruct (process_order_cases draw order w) as [-> | (Hq & ->)];
    [apply persists_refl|].
  eapply persists_map; [|apply apply_fill_effect].
  intros o Ho. unfold filled_row.
  destruct (Nat.eqb (o_id o) (o_id order)) eqn:E;
    [|apply later_state_refl].
  apply Nat.eqb_eq in E.
  assert (o = order) by (apply (NoDup_ids_eq o_id (orders w)); trivial).
  subst o. repeat split. cbn. lra.
Qed.

Lemma step_persists op w : well_formed w -> persists w (step op w).
Proof.
  intros Hwf. destruct op; simpl.
  - apply send_order_persists.
  - apply cancel_order_persists.
  - apply cancel_all_orders_persists.
  - apply (simulate_invariant
             (fun w' => well_formed w' /\ persists w w') draws);
      [ intros w' Hw'; apply Hw'
      | intros w' n Hw'; exact Hw'
      |
      | split; [exact Hwf | apply persists_refl] ].
    intros i o w' [Hw' Hp] Ho.
    split; [now apply process_order_well_formed|].
    eapply persists_trans; [exact Hp|].
    apply process_order_persists; [apply Hw' | exact Ho].
  - apply kill_switch_persists.
  - apply persists_same. unfold check_mandate_breaches.
    apply (fold_check_next_id (filter m_is_active (risk_mandates w)) w).
  - apply persists_same. reflexivity.
  - apply persists_same. reflexivity.
  - apply persists_same. reflexivity.
Qed.

(** X10.  No operation deletes an order, changes what an order asks for (its
    strategy, symbol, side, type, requested quantity and creator) or lowers
    its filled quantity: every order of a well-formed store is still there
    after any run, under the same id. *)
Theorem orders_persist (ops : list Op) (w : World) (o : Order) :
  well_formed w -> In o (orders w) ->
  exists o', In o' (orders (run ops w)) /\ later_state o o'.
Proof.
  intros Hwf. revert o.
  change (persists w (run ops w)).
  revert w Hwf. induction ops as [|op ops IH]; intros w Hwf;
    [apply persists_refl|].
  eapply persists_trans; [apply step_persists; exact Hwf|].
  apply IH. now apply step_well_formed.
Qed.

Definition partial_order : Order :=
  mkOrder 2 (Some 3%nat) "AAPL" OrderSide.BUY OrderType.LIMIT 100
    (Some 50) None 60 (Some 50) OrderStatus.PARTIAL 8 0.

Lemma trading_world_well_formed : well_formed trading_world.
Proof.
  unfold well_formed. cbn.
  repeat split; repeat constructor; cbn; try lia;
    intros H; repeat (destruct H as [H | H]; try discriminate H); exact H.
Qed.

Lemma orders_persist_witness :
  exists o',
    In o' (orders (run [KillSwitch no_fault confirmed_halt admin;
                        Simulate (fun _ => mkDraw 0 (1 # 2))]
                     trading_world))
    /\ later_state partial_order o'.
Proof.
  apply (orders_persist _ trading_world partial_order
           trading_world_well_formed).
  cbn. auto.
Defined.

(** ** One pass of the fill loop *)






(** ** Positions of a fill *)

Lemma fetch_position_null symbol w : fetch_position symbol None w = None.
Proof.
  unfold fetch_position. induction (positions w) as [|p l IH]; simpl; trivial.
  assert (E : sql_eq (p_strategy_id p) None = false)
    by now destruct (p_strategy_id p).
  rewrite E, andb_false_r. exact IH.
Qed.

(** X12.  A fill on an order that has no strategy never finds a position to
    update, because [strategy_id = NULL] selects no row: every such fill
    appends a new position row with no strategy, holding just that fill,
    and leaves the existing rows as they are. *)
Theorem fill_without_strategy (order : Order) (q p : Q) (w : World) :
  o_strategy_id order = None ->
  positions (apply_fill order q p w)
  = (positions w
       ++ [mkPosition (next_id w) None (o_symbol order)
             (qty_change_of order q) p p (now w)])%list
  /\ positions (apply_fill order q p (apply_fill order q p w))
     = (positions w
          ++ [mkPosition (next_id w) None (o_symbol order)
                (qty_change_of order q) p p (now w);
              mkPosition (S (next_id w)) None (o_symbol order)
                (qty_change_of order q) p p (now w)])%list.
Proof.
  intros Hs.
  assert (Hone : forall w',
            positions (apply_fill order q p w')
            = (positions w'
                 ++ [mkPosition (next_id w') None (o_symbol order)
                       (qty_change_of order q) p p (now w')])%list
            /\ next_id (apply_fill order q p w') = S (next_id w')
            /\ now (apply_fill order q p w') = now w').
  { intros w'. unfold apply_fill, update_position, write_position.
    rewrite Hs, fetch_position_null. cbn. auto. }
  split; [apply Hone|].
  destruct (Hone w) as (E1 & E2 & E3).
  destruct (Hone (apply_fill order q p w)) as (F1 & _).
  rewrite F1, E1, E2, E3, <- app_assoc. reflexivity.
Qed.

Definition orphan_order : Order :=
  mkOrder 6 None "MSFT" OrderSide.SELL OrderType.MARKET 10 None None
    0 None OrderStatus.PENDING 8 0.

Lemma fill_without_strategy_witness :
  positions (apply_fill orphan_order 4 300 trading_world)
  = (positions trading_world
       ++ [mkPosition 5 None "MSFT" (- (4)) 300 300 1])%list.
Proof.
  apply (fill_without_strategy orphan_order 4 300 trading_world).
  reflexivity.
Defined.

(** X13.  A fill moves the position of the order's own (strategy, symbol) pair
    only: the quantity held for any other pair is what it was. *)
Theorem fill_leaves_other_positions
    (order : Order) (q p : Q) (w : World) (s : nat) (sym : string) :
  NoDup (map p_id (positions w)) ->
  owns (o_symbol order) (o_strategy_id order) s sym = false ->
  position_quantity (apply_fill order q p w) s sym
  == position_quantity w s sym.
Proof.
  intros Hnd Hother. rewrite !position_quantity_held.
  unfold apply_fill. cbv zeta.
  rewrite update_position_held by exact Hnd.
  rewrite Hother. reflexivity.
Qed.

Lemma fill_leaves_other_positions_witness :
  position_quantity (apply_fill orphan_order 4 300 trading_world) 3 "AAPL"
  == position_quantity trading_world 3 "AAPL".
Proof.
  apply (fill_leaves_other_positions orphan_order 4 300 trading_world
           3 "AAPL").
  - apply trading_world_well_formed.
  - reflexivity.
Defined.

(** ** One monitoring pass *)

Definition with_status (st : MandateStatus.t) (t : nat) (r : Mandate)
  : Mandate :=
  mkMandate (m_id r) (m_mandate_id r) (m_description r) (m_soft_limit r)
    (m_hard_limit r) (m_current_value r) st (m_is_active r) t.

(** What the loop over the snapshot [l] makes of row [r]. *)
Definition settle (t : nat) (l : list Mandate) (r : Mandate) : Mandate :=
  match find (fun m => Nat.eqb (m_id m) (m_id r)) l with
  | Some m =>
      if MandateStatus.eqb (m_status m) (fst (evaluate m)) then r
      else with_status (fst (evaluate m)) t r
  | None => r
  end.

(** What a monitoring pass makes of a row of a table with unique ids: a
    monitored mandate whose persisted status is not the evaluated one gets
    the evaluated status and the time of the pass. *)
Definition settle_row (t : nat) (r : Mandate) : Mandate :=
  if m_is_active r && negb (MandateStatus.eqb (m_status r) (fst (evaluate r)))
  then with_status (fst (evaluate r)) t r
  else r.

Lemma check_mandate_mandates m w :
  risk_mandates (check_mandate m w)
  = map (settle (now w) [m]) (risk_mandates w)
  /\ now (check_mandate m w) = now w.
Proof.
  assert (Hsame : MandateStatus.eqb (m_status m) (fst (evaluate m)) = true ->
                  map (settle (now w) [m]) (risk_mandates w)
                  = risk_mandates w).
  { intros E. rewrite <- (map_id (risk_mandates w)) at 2.
    apply map_ext. intros r. unfold settle. cbn [find].
    destruct (Nat.eqb (m_id m) (m_id r)); [now rewrite E | reflexivity]. }
  assert (Hdiff : MandateStatus.eqb (m_status m) (fst (evaluate m)) = false ->
                  risk_mandates
                    (update_mandate_status (m_id m) (fst (evaluate m)) w)
                  = map (settle (now w) [m]) (risk_mandates w)).
  { intros E. cbn. apply map_ext. intros r. unfold settle. cbn [find].
    rewrite (Nat.eqb_sym (m_id m) (m_id r)).
    destruct (Nat.eqb (m_id r) (m_id m)); [now rewrite E | reflexivity]. }
  destruct (check_mandate_cases m w)
    as [[E ->] | [(E & _ & ->) | (E & sev & alert & _ & _ & ->)]].
  - split; [|reflexivity]. symmetry. apply Hsame.
    now apply MandateStatus_eqb_eq.
  - split; [|reflexivity]. apply Hdiff.
    destruct (MandateStatus.eqb _ _) eqn:E'; trivial.
    apply MandateStatus_eqb_eq in E'. contradiction.
  - split; [|reflexivity]. cbn [risk_mandates set_risk_alerts broadcast_alert
                                 set_ws_broadcasts set_next_id].
    apply Hdiff.
    destruct (MandateStatus.eqb _ _) eqn:E'; trivial.
    apply MandateStatus_eqb_eq in E'. contradiction.
Qed.

Lemma settle_id t l r : m_id (settle t l r) = m_id r.
Proof.
  unfold settle. destruct (find _ l) as [m|]; trivial.
  destruct (MandateStatus.eqb _ _); reflexivity.
Qed.

Lemma settle_cons t m l r :
  ~ In (m_id m) (map m_id l) ->
  settle t (m :: l) r = settle t l (settle t [m] r).
Proof.
  intros Hnot. unfold settle at 1 3. cbn [find].
  destruct (Nat.eqb (m_id m) (m_id r)) eqn:E.
  - apply Nat.eqb_eq in E.
    assert (Hnone : forall r', m_id r' = m_id r ->
              find (fun m0 => Nat.eqb (m_id m0) (m_id r')) l = None).
    { intros r' Er'. destruct (find _ l) as [x|] eqn:Ef; trivial.
      apply find_some in Ef. destruct Ef as [Hx Ex].
      apply Nat.eqb_eq in Ex. exfalso. apply Hnot.
      apply in_map_iff. exists x. split; [congruence | trivial]. }
    unfold settle.
    destruct (MandateStatus.eqb (m_status m) (fst (evaluate m)));
      now rewrite Hnone.
  - reflexivity.
Qed.

Lemma fold_check_mandates l : forall w,
  NoDup (map m_id l) ->
  let w' := fold_left (fun acc m => check_mandate m acc) l w in
  risk_mandates w' = map (settle (now w) l) (risk_mandates w)
  /\ now w' = now w.
Proof.
  induction l as [|m l IH]; intros w Hnd; simpl.
  - split; [|reflexivity]. rewrite <- (map_id (risk_mandates w)) at 1.
    apply map_ext. reflexivity.
  - inversion Hnd as [|? ? Hnot Hnd']; subst.
    destruct (check_mandate_mandates m w) as [Em En].
    destruct (IH (check_mandate m w) Hnd') as [E1 E2].
    rewrite E1, E2, En, Em, map_map. split; [|reflexivity].
    apply map_ext. intros r. symmetry. now apply settle_cons.
Qed.

Lemma evaluate_with_status st t r : evaluate (with_status st t r) = evaluate r.
Proof. reflexivity. Qed.

Lemma fold_check_settled l : forall w,
  Forall (fun m => m_status m = fst (evaluate m)) l ->
  fold_left (fun acc m => check_mandate m acc) l w = w.
Proof.
  induction l as [|m l IH]; intros w H; simpl; trivial.
  inversion H as [|? ? Hm Hl]; subst.
  destruct (check_mandate_cases m w)
    as [[_ ->] | [(N & _) | (N & _)]]; [now apply IH | contradiction ..].
Qed.

Lemma check_mandate_breaches_rows w :
  NoDup (map m_id (risk_mandates w)) ->
  risk_mandates (check_mandate_breaches w)
  = map (settle_row (now w)) (risk_mandates w)
  /\ now (check_mandate_breaches w) = now w.
Proof.
  intros Hnd. unfold check_mandate_breaches.
  set (l := filter m_is_active (risk_mandates w)).
  assert (Hl : NoDup (map m_id l)) by now apply NoDup_map_filter.
  destruct (fold_check_mandates l w Hl) as [E En].
  split; [|exact En].
  rewrite E. apply map_ext_in. intros r Hr. unfold settle, settle_row.
  destruct (m_is_active r) eqn:Ea.
  - assert (Hin : In r l) by (apply filter_In; auto).
    assert (Ef : find (fun m => Nat.eqb (m_id m) (m_id r)) l = Some r).
    { destruct (find _ l) as [x|] eqn:Ef.
      - apply find_some in Ef. destruct Ef as [Hx Ex].
        apply Nat.eqb_eq in Ex. f_equal.
        apply (NoDup_ids_eq m_id l); trivial.
      - apply (find_none _ _ Ef) in Hin. rewrite Nat.eqb_refl in Hin.
        discriminate. }
    rewrite Ef. cbn. now destruct (MandateStatus.eqb _ _).
  - destruct (find _ l) as [x|] eqn:Ef; trivial.
    apply find_some in Ef. destruct Ef as [Hx Ex].
    apply Nat.eqb_eq in Ex. apply filter_In in Hx. destruct Hx as [Hx Hax].
    assert (x = r) by (apply (NoDup_ids_eq m_id (risk_mandates w)); trivial).
    subst x. congruence.
Qed.

Lemma settle_row_settled t r :
  m_is_active r = true ->
  m_status (settle_row t r) = fst (evaluate (settle_row t r)).
Proof.
  intros Ea. unfold settle_row. rewrite Ea. cbn [andb].
  destruct (MandateStatus.eqb (m_status r) (fst (evaluate r))) eqn:Es;
    cbn [negb].
  - now apply MandateStatus_eqb_eq.
  - reflexivity.
Qed.

Lemma settle_row_active t r : m_is_active (settle_row t r) = m_is_active r.
Proof.
  unfold settle_row.
  destruct (m_is_active r && negb (MandateStatus.eqb _ _)); reflexivity.
Qed.

(** X14.  A monitoring pass over a table with unique ids rewrites exactly the
    monitored mandates whose persisted status is not the evaluated one,
    giving them the evaluated status; limits, values and the mandates
    that are not monitored stay as they are.  Afterwards the persisted
    status of every monitored mandate is the evaluated one, and running
    the pass again changes nothing at all. *)
Theorem monitoring_pass (w : World) :
  NoDup (map m_id (risk_mandates w)) ->
  let w' := check_mandate_breaches w in
  risk_mandates w' = map (settle_row (now w)) (risk_mandates w)
  /\ Forall (fun r => m_is_active r = true -> m_status r = fst (evaluate r))
       (risk_mandates w')
  /\ check_mandate_breaches w' = w'.
Proof.
  intros Hnd. cbv zeta.
  destruct (check_mandate_breaches_rows w Hnd) as [Hrows _].
  assert (Hsettled :
            Forall (fun r => m_is_active r = true ->
                             m_status r = fst (evaluate r))
              (risk_mandates (check_mandate_breaches w))).
  { rewrite Hrows. apply Forall_forall. intros r' Hr'.
    apply in_map_iff in Hr'. destruct Hr' as (r & <- & _).
    rewrite settle_row_active. apply settle_row_settled. }
  split; [exact Hrows|]. split; [exact Hsettled|].
  unfold check_mandate_breaches at 1. apply fold_check_settled.
  apply Forall_forall. intros r Hr.
  apply filter_In in Hr. destruct Hr as [Hr Ha].
  rewrite Forall_forall in Hsettled. now apply Hsettled.
Qed.

Lemma monitoring_pass_witness :
  check_mandate_breaches (check_mandate_breaches one_mandate)
  = check_mandate_breaches one_mandate.
Proof.
  apply (monitoring_pass one_mandate).
  cbn. constructor; [intros [] | constructor].
Defined.

(** What holds of every alert row the monitor stores: the row repeats the
    mandate, severity and message of its payload, the severity is WARNING
    or CRITICAL, and the payload names a limit that is in force and that
    the reported value reaches. *)
Definition alert_ok (r : RiskAlertRow) : Prop :=
  ra_mandate_id r = a_mandate_id (ra_details r)
  /\ ra_severity r = a_severity (ra_details r)
  /\ ra_message r = a_message (ra_details r)
  /\ (a_severity (ra_details r) = AlertSeverity.CRITICAL
      \/ a_severity (ra_details r) = AlertSeverity.WARNING)
  /\ breached (a_limit (ra_details r)) (a_current_value (ra_details r)).

Lemma check_mandate_alerts m w :
  exists new,
    risk_alerts (check_mandate m w) = (risk_alerts w ++ new)%list
    /\ ws_broadcasts (check_mandate m w)
       = (ws_broadcasts w
            ++ map (fun r => MANDATE_ALERT (ra_details r)) new)%list
    /\ (List.length new <= 1)%nat
    /\ Forall alert_ok new.
Proof.
  assert (Hnone : exists new,
            risk_alerts w = (risk_alerts w ++ new)%list
            /\ ws_broadcasts w
               = (ws_broadcasts w
                    ++ map (fun r => MANDATE_ALERT (ra_details r)) new)%list
            /\ (List.length new <= 1)%nat /\ Forall alert_ok new).
  { exists []. cbn. rewrite !app_nil_r. repeat split; auto. }
  unfold check_mandate, evaluate.
  destruct (limit_reached (float_or_none (m_hard_limit m)) _) eqn:Eh.
  - destruct (MandateStatus.eqb (m_status m) MandateStatus.BREACH);
      [exact Hnone|].
    eexists [_]. cbn. split; [reflexivity|]. split; [reflexivity|].
    split; [lia|]. constructor; [|constructor].
    unfold alert_ok. cbn. repeat split; auto.
    now apply limit_reached_iff.
  - destruct (limit_reached (float_or_none (m_soft_limit m)) _) eqn:Es.
    + destruct (MandateStatus.eqb (m_status m) MandateStatus.WARNING);
        [exact Hnone|].
      eexists [_]. cbn. split; [reflexivity|]. split; [reflexivity|].
      split; [lia|]. constructor; [|constructor].
      unfold alert_ok. cbn. repeat split; auto.
      now apply limit_reached_iff.
    + destruct (MandateStatus.eqb (m_status m) MandateStatus.OK);
        exact Hnone.
Qed.

(** X15.  A monitoring pass stores and broadcasts in step: the alerts it
    broadcasts are, in order, the payloads of the rows it stores.  It
    stores at most one row per monitored mandate, and every row names a
    limit in force that the reported value reaches, with severity WARNING
    or CRITICAL. *)
Theorem pass_alerts (w : World) :
  exists new,
    risk_alerts (check_mandate_breaches w) = (risk_alerts w ++ new)%list
    /\ ws_broadcasts (check_mandate_breaches w)
       = (ws_broadcasts w
            ++ map (fun r => MANDATE_ALERT (ra_details r)) new)%list
    /\ (List.length new
        <= List.length (filter m_is_active (risk_mandates w)))%nat
    /\ Forall alert_ok new.
Proof.
  unfold check_mandate_breaches.
  generalize (filter m_is_active (risk_mandates w)). intros l. revert w.
  induction l as [|m l IH]; intros w; simpl.
  - exists []. cbn. rewrite !app_nil_r. repeat split; auto.
  - destruct (check_mandate_alerts m w) as (n1 & A1 & B1 & L1 & F1).
    destruct (IH (check_mandate m w)) as (n2 & A2 & B2 & L2 & F2).
    exists (n1 ++ n2)%list.
    rewrite A2, B2, A1, B1, map_app, <- !app_assoc, length_app.
    repeat split; [lia|]. apply Forall_app. auto.
Qed.

Definition status_rank (s : MandateStatus.t) : nat :=
  match s with
  | MandateStatus.OK => 0
  | MandateStatus.WARNING => 1
  | MandateStatus.BREACH => 2
  end.

Lemma limit_reached_mono l c c' :
  Qabs c <= Qabs c' -> limit_reached l c = true -> limit_reached l c' = true.
Proof.
  intros Hle H. apply limit_reached_iff in H. apply limit_reached_iff.
  destruct H as (x & E & Hx & Hr). exists x. repeat split; trivial. lra.
Qed.

(** X16.  With the limits held fixed the evaluated status only gets worse as
    the magnitude of the value grows: from OK to WARNING to BREACH, never
    back. *)
Theorem status_monotone (m m' : Mandate) :
  m_hard_limit m' = m_hard_limit m ->
  m_soft_limit m' = m_soft_limit m ->
  Qabs (value_of m) <= Qabs (value_of m') ->
  (status_rank (fst (evaluate m)) <= status_rank (fst (evaluate m')))%nat.
Proof.
  intros Hh Hs Hle. rewrite !evaluate_eq.
  unfold hard_limit_of, soft_limit_of. rewrite Hh, Hs.
  apply float_abs_le in Hle.
  pose proof (limit_reached_mono (float_or_none (m_hard_limit m)) _ _ Hle)
    as Mh.
  pose proof (limit_reached_mono (float_or_none (m_soft_limit m)) _ _ Hle)
    as Ms.
  destruct (limit_reached (float_or_none (m_hard_limit m))
              (float (value_of m))),
    (limit_reached (float_or_none (m_hard_limit m)) (float (value_of m'))),
    (limit_reached (float_or_none (m_soft_limit m)) (float (value_of m))),
    (limit_reached (float_or_none (m_soft_limit m)) (float (value_of m')));
    cbn; try lia;
    first [ specialize (Mh eq_refl); discriminate
          | specialize (Ms eq_refl); discriminate ].
Qed.

Definition mandate_at (v : Q) : Mandate :=
  mkMandate 1 "M1" "gross exposure" (Some 100) (Some 150) (Some v)
    MandateStatus.OK true 0.

Lemma status_monotone_witness :
  (status_rank (fst (evaluate (mandate_at 110)))
   <= status_rank (fst (evaluate (mandate_at (-160)))))%nat.
Proof.
  apply status_monotone; [reflexivity | reflexivity |].
  cbn. unfold Qle. cbn. lia.
Defined.

(** ** The registry of alert subscribers

    [RiskAlertManager] of [services/risk-engine/main.py]: the set of open
    sockets as a list, a socket as a number.  Whether a send to a socket
    succeeds is up to the socket: [send_ok] tells, at the time of a
    broadcast, which sockets accept a message.  [inbox] records, in order,
    which socket was sent which message. *)

Module RiskAlertManager.

Record t := mk {
  active_connections : list nat;
  inbox : list (nat * WsMessage)
}.

(** [set.add] *)
Definition add (ws : nat) (s : list nat) : list nat :=
  if existsb (Nat.eqb ws) s then s else (s ++ [ws])%list.

(** [set.discard] *)
Definition discard (ws : nat) (s : list nat) : list nat :=
  filter (fun x => negb (Nat.eqb x ws)) s.

Definition connect (websocket : nat) (m : t) : t :=
  mk (add websocket (active_connections m)) (inbox m).

Definition disconnect (websocket : nat) (m : t) : t :=
  mk (discard websocket (active_connections m)) (inbox m).

(** The first loop of [broadcast_alert]: send to every socket and collect
    the sockets whose send raised. *)
Definition send_all (send_ok : nat -> bool) (alert : WsMessage)
    (connections : list nat) (sent : list (nat * WsMessage))
  : list (nat * WsMessage) * list nat :=
  fold_left
    (fun acc connection =>
       if send_ok connection
       then ((fst acc ++ [(connection, alert)])%list, snd acc)
       else (fst acc, add connection (snd acc)))
    connections (sent, []).

Definition broadcast_alert (send_ok : nat -> bool) (alert : WsMessage)
    (m : t) : t :=
  match send_all send_ok alert (active_connections m) (inbox m) with
  | (sent, disconnected) =>
      mk (fold_left (fun s conn => discard conn s) disconnected
            (active_connections m))
         sent
  end.

Lemma In_add ws x s : In x (add ws s) <-> x = ws \/ In x s.
Proof.
  unfold add. destruct (existsb (Nat.eqb ws) s) eqn:E.
  - split; [auto|]. intros [-> | H]; trivial.
    apply existsb_exists in E. destruct E as (y & Hy & Ey).
    apply Nat.eqb_eq in Ey. now subst.
  - rewrite in_app_iff. simpl. intuition.
Qed.

Lemma send_all_spec (send_ok : nat -> bool) (alert : WsMessage)
    (connections : list nat) :
  forall (sent : list (nat * WsMessage)) (failed : list nat),
  let r := fold_left
             (fun (acc : list (nat * WsMessage) * list nat) connection =>
                if send_ok connection
                then ((fst acc ++ [(connection, alert)])%list, snd acc)
                else (fst acc, add connection (snd acc)))
             connections (sent, failed) in
  fst r = (sent ++ map (fun c => (c, alert)) (filter send_ok connections))%list
  /\ (forall x, In x (snd r)
                <-> In x failed \/ (In x connections /\ send_ok x = false)).
Proof.
  induction connections as [|c l IH]; intros sent failed; simpl.
  - rewrite app_nil_r. split; [reflexivity | intuition].
  - destruct (send_ok c) eqn:E; simpl.
    + destruct (IH (sent ++ [(c, alert)])%list failed) as [H1 H2].
      split; [rewrite H1, <- app_assoc; reflexivity|].
      intros x. rewrite H2. intuition. subst. congruence.
    + destruct (IH sent (add c failed)) as [H1 H2].
      split; [exact H1|].
      intros x. rewrite H2, In_add. intuition. subst. auto.
Qed.

Lemma discard_all failed : forall s,
  fold_left (fun s conn => discard conn s) failed s
  = filter (fun x => negb (existsb (Nat.eqb x) failed)) s.
Proof.
  induction failed as [|c l IH]; intros s; simpl.
  - induction s as [|x s IHs]; simpl; [reflexivity | now rewrite <- IHs].
  - rewrite IH. unfold discard.
    induction s as [|x s IHs]; simpl; [reflexivity|].
    destruct (Nat.eqb x c); simpl; [exact IHs|].
    destruct (existsb (Nat.eqb x) l); simpl; [exact IHs | now rewrite IHs].
Qed.

(** X17.  A broadcast sends the alert once to every socket that accepts it, in
    the order of the registry, and drops from the registry exactly the
    sockets whose send failed.  The sockets left all accepted the alert,
    so a broadcast that meets the same sockets again drops none. *)
Theorem broadcast_prunes (send_ok : nat -> bool) (alert alert' : WsMessage)
    (m : t) :
  let m' := broadcast_alert send_ok alert m in
  active_connections m' = filter send_ok (active_connections m)
  /\ inbox m'
     = (inbox m ++ map (fun c => (c, alert))
                       (filter send_ok (active_connections m)))%list
  /\ active_connections (broadcast_alert send_ok alert' m')
     = active_connections m'.
Proof.
  assert (Hone : forall a x,
            active_connections (broadcast_alert send_ok a x)
            = filter send_ok (active_connections x)
            /\ inbox (broadcast_alert send_ok a x)
               = (inbox x ++ map (fun c => (c, a))
                                 (filter send_ok (active_connections x)))%list).
  { intros a x. unfold broadcast_alert, send_all.
    destruct (send_all_spec send_ok a (active_connections x) (inbox x) [])
      as [H1 H2].
    destruct (fold_left _ (active_connections x) (inbox x, []))
      as [sent failed].
    cbn [fst snd active_connections inbox] in *. split; [|exact H1].
    rewrite discard_all. apply filter_ext_in. intros c Hc.
    destruct (send_ok c) eqn:E.
    - destruct (existsb (Nat.eqb c) failed) eqn:Ex; trivial.
      apply existsb_exists in Ex. destruct Ex as (y & Hy & Ey).
      apply Nat.eqb_eq in Ey. subst y. apply H2 in Hy.
      destruct Hy as [[] | [_ Hy]]. congruence.
    - assert (Hin : In c failed) by (apply H2; auto).
      assert (Ex : existsb (Nat.eqb c) failed = true).
      { apply existsb_exists. exists c. split; trivial. apply Nat.eqb_refl. }
      now rewrite Ex. }
  cbv zeta. destruct (Hone alert m) as [H1 H2].
  split; [exact H1|]. split; [exact H2|].
  destruct (Hone alert' (broadcast_alert send_ok alert m)) as [H3 _].
  rewrite H3, H1. clear.
  induction (active_connections m) as [|c l IH]; simpl; trivial.
  destruct (send_ok c) eqn:E; simpl; [rewrite E, IH|]; trivial.
Qed.

(** X18.  The registry is a set: connecting a socket that is already there
    changes nothing, disconnecting removes the socket and nothing else,
    and disconnecting a socket that is not there changes nothing. *)
Theorem registry_is_a_set (ws : nat) (m : t) :
  NoDup (active_connections m) ->
  NoDup (active_connections (connect ws m))
  /\ connect ws (connect ws m) = connect ws m
  /\ (forall x, In x (active_connections (disconnect ws m))
                <-> In x (active_connections m) /\ x <> ws)
  /\ (~ In ws (active_connections m) ->
      disconnect ws m = m /\ disconnect ws (connect ws m) = m).
Proof.
  intros Hnd. destruct m as [s ib]. cbn in *.
  assert (Hdisc : ~ In ws s -> discard ws s = s).
  { intros Hnot. unfold discard. induction s as [|x s IH]; simpl; trivial.
    inversion Hnd; subst.
    assert (E : Nat.eqb x ws = false)
      by (apply Nat.eqb_neq; intros ->; apply Hnot; now left).
    rewrite E. simpl. f_equal. apply IH; trivial.
    intros H. apply Hnot. now right. }
  assert (Hadd : existsb (Nat.eqb ws) (add ws s) = true).
  { apply existsb_exists. exists ws. split; [|apply Nat.eqb_refl].
    apply In_add. now left. }
  split; [|split; [|split]].
  - unfold add. destruct (existsb (Nat.eqb ws) s) eqn:E; trivial.
    apply NoDup_app; trivial.
    + constructor; [intros [] | constructor].
    + intros a Ha [-> | []].
      assert (existsb (Nat.eqb a) s = true); [|congruence].
      apply existsb_exists. exists a. split; trivial. apply Nat.eqb_refl.
  - unfold connect. cbn. f_equal. unfold add at 1. now rewrite Hadd.
  - intros x. unfold discard. rewrite filter_In, negb_true_iff, Nat.eqb_neq.
    tauto.
  - intros Hnot. unfold disconnect, connect. cbn [active_connections inbox].
    split; [now rewrite Hdisc|]. f_equal.
    unfold add.
    destruct (existsb (Nat.eqb ws) s) eqn:E.
    + apply existsb_exists in E. destruct E as (y & Hy & Ey).
      apply Nat.eqb_eq in Ey. subst y. contradiction.
    + unfold discard. rewrite filter_app. simpl. rewrite Nat.eqb_refl. simpl.
      rewrite app_nil_r. now apply Hdisc.
Qed.

Lemma registry_is_a_set_witness :
  NoDup (active_connections (connect 3 (mk [1; 2]%nat [])))
  /\ connect 3 (connect 3 (mk [1; 2]%nat [])) = connect 3 (mk [1; 2]%nat [])
  /\ (forall x, In x (active_connections (disconnect 3 (mk [1; 2]%nat [])))
                <-> In x (active_connections (mk [1; 2]%nat [])) /\ x <> 3%nat)
  /\ (~ In 3%nat (active_connections (mk [1; 2]%nat [])) ->
      disconnect 3 (mk [1; 2]%nat []) = mk [1; 2]%nat []
      /\ disconnect 3 (connect 3 (mk [1; 2]%nat [])) = mk [1; 2]%nat []).
Proof.
  apply (registry_is_a_set 3 (mk [1; 2]%nat [])).
  cbn. repeat constructor; cbn; intuition discriminate.
Defined.

End RiskAlertManager.

(** ** The risk monitoring loop

    One iteration of the [while True] loop of [risk_monitoring_loop]: it
    moves the simulated [RISK_STATE], varies the values of the monitored
    mandates, runs a monitoring pass, and publishes the risk state to
    Redis and now and then to the [risk_snapshots] table.  The expiry of
    the Redis key is not modelled. *)













From Stdlib Require Import Znat.


















(** ** Risk settings

    [POST /risk/update]; the key [risk:settings] of Redis is kept beside
    the store. *)

Definition update_risk_settings (settings : list (string * JsonValue))
    (current_user : UserContext)
    (st : World * option (list (string * JsonValue)))
  : (World * option (list (string * JsonValue)))
    * Result (list (string * JsonValue)) :=
  if negb (existsb (String.eqb (role current_user)) ["ADMIN"; "QUANT"]) then
    (st, Raise (Http (mkHTTPException 403 "Insufficient permissions")))
  else
    let w1 :=
      fst (log_audit "risk-engine" (id current_user) "RISK_SETTINGS_UPDATE"
             "risk" "settings" None (Some settings) (fst st)) in
    ((w1, Some settings), Return settings).

(** X21.  Only an ADMIN or a QUANT can update the risk settings: for any other
    role the answer is 403 and neither the store nor the settings change.
    An accepted update replaces the settings in Redis, returns them, and
    appends one audit record, whose after-state is NULL when the settings
    are empty; nothing else of the store changes. *)
Theorem update_risk_settings_effect
    (settings : list (string * JsonValue)) (user : UserContext)
    (w : World) (old : option (list (string * JsonValue))) :
  let r := update_risk_settings settings user (w, old) in
  (role user <> "ADMIN" -> role user <> "QUANT" ->
   r = ((w, old), Raise (Http (mkHTTPException 403 "Insufficient permissions"))))
  /\ (role user = "ADMIN" \/ role user = "QUANT" ->
      r = ((set_audit_events
              (audit_events w
                 ++ [mkAuditEvent (id user) "risk-engine"
                       "RISK_SETTINGS_UPDATE" "risk" "settings" None
                       (match settings with
                        | [] => None
                        | _ :: _ => Some settings
                        end)]) w,
            Some settings),
           Return settings)).
Proof.
  cbv zeta. unfold update_risk_settings. cbn [existsb]. split.
  - intros H1 H2.
    destruct (String.eqb (role user) "ADMIN") eqn:E1;
      [apply String.eqb_eq in E1; contradiction|].
    destruct (String.eqb (role user) "QUANT") eqn:E2;
      [apply String.eqb_eq in E2; contradiction|].
    reflexivity.
  - intros H.
    assert (E : String.eqb (role user) "ADMIN"
                || (String.eqb (role user) "QUANT" || false) = true).
    { destruct H as [-> | ->]; reflexivity. }
    rewrite E. cbn [negb]. unfold log_audit, modify. cbn [fst snd].
    unfold dumps_or_none. now destruct settings.
Qed.

Lemma update_risk_settings_effect_witness :
  update_risk_settings [("max_leverage", JNum 5)] viewer (trading_world, None)
  = ((trading_world, None),
     Raise (Http (mkHTTPException 403 "Insufficient permissions"))).
Proof.
  apply (proj1 (update_risk_settings_effect [("max_leverage", JNum 5)]
                  viewer trading_world None)); discriminate.
Defined.
